(** * control-animation: a shallow embedding of the demo's Python sources

  The development follows the three source files:
  - [utils/utils.py]      (module [Utils]): watermarking, video sampling,
    GIF post-processing;
  - [app.py]              (module [App]): the launch policy of the shell;
  - [custom_pipeline.py]  (module [Pipeline]): the ControlNet-guided
    diffusion pipeline (text inputs, [_generate], the safety stage).

  Conventions.  Python [int]s are [Z].  A Python [float] that carries a
  time, a rate or an aspect ratio is the rational [Q] it denotes, and
  every float operation rounds its exact result (module [Float]):
  [binary64] is the rounding of the code, [exact] no rounding at all;
  [int(x)] is truncation toward zero.  Arrays are a shape together with
  their row-major data.  Exceptions and calls into the external models
  are threaded through a small writer/error monad [M] whose trace lists
  the external calls in program order. *)

From Stdlib Require Import ZArith QArith Qminmax Qabs Qpower Qround Lia Lqa.
From stdpp Require Import base list strings gmap.

Local Open Scope Z_scope.
Set Warnings "-register-all".

(** ** Python-level plumbing shared by the three files *)

Module Py.

(** Exceptions, named after the error kinds of the specification.
    [InvalidInput] stands for the [ValueError]s and failed [assert]s
    raised on caller mistakes, [ShapeMismatch] for the [ValueError] on
    unexpected latents; the remaining ones are raised by Python or by
    numpy/jax/PIL themselves. *)
Inductive exn :=
| InvalidInput (what : string)
| ShapeMismatch (got expected : list Z)
| IndexError
| ZeroDivisionError
| UnpackError
| LibraryError (what : string).

(** Calls that leave the repository: one event per invocation. *)
Inductive event :=
| EvTokenizer
| EvTextEncoder
| EvRandomNormal
| EvSetTimesteps
| EvScaleModelInput
| EvControlNet
| EvUNet
| EvSchedulerStep
| EvVaeDecode
| EvFeatureExtractor
| EvSafetyChecker
| EvWarn (msg : string).

(** Writer/error monad: the events so far and either an exception or a
    value.  After an exception nothing more is logged. *)
Record M (A : Type) := MkM { trace : list event; outcome : exn + A }.
Arguments MkM {A} _ _.
Arguments trace {A} _.
Arguments outcome {A} _.

Definition ret {A} (a : A) : M A := MkM [] (inr a).
Definition raise {A} (e : exn) : M A := MkM [] (inl e).
Definition call {A} (ev : event) (a : A) : M A := MkM [ev] (inr a).
Definition lift {A} (r : exn + A) : M A := MkM [] r.

Definition bind {A B} (m : M A) (f : A -> M B) : M B :=
  match outcome m with
  | inl e => MkM (trace m) (inl e)
  | inr a => let m' := f a in MkM (trace m ++ trace m') (outcome m')
  end.

(** Values a caller can pass where Python accepts anything. *)
Inductive pyval :=
| PyNone
| PyBool (b : bool)
| PyInt (z : Z)
| PyFloat (q : Q)
| PyStr (s : string)
| PyList (l : list pyval)
| PyTuple (l : list pyval).

(** [int(x)] on a float: truncation toward zero. *)
Definition py_int (q : Q) : Z := Z.quot (Qnum q) (Z.pos (Qden q)).

Definition Qlt_bool (a b : Q) : bool := negb (Qle_bool b a).

(** [min(a, b)]: the first argument unless the second is smaller. *)
Definition py_min (a b : Q) : Q := if Qlt_bool b a then b else a.

(** [any(flags)] *)
Definition any (flags : list bool) : bool := existsb id flags.

(** [for x in xs: s = body(x, s)] *)
Fixpoint for_each {X S} (xs : list X) (body : X -> S -> M S) (s : S) : M S :=
  match xs with
  | [] => ret s
  | x :: xs' => bind (body x s) (for_each xs' body)
  end.

(** [range(n)] (empty when [n <= 0]) *)
Definition range (n : Z) : list Z := seqZ 0 n.

(** [enumerate(xs)] *)
Definition enumerate {X} (xs : list X) : list (Z * X) :=
  zip (seqZ 0 (Z.of_nat (length xs))) xs.

End Py.

Export Py.

Declare Scope py_scope.
Delimit Scope py_scope with py.
Notation "'let*' x ':=' m 'in' k" := (bind m (fun x => k))
  (at level 10, x name, m at level 100, k at level 200) : py_scope.
Notation "'let*' ' pat ':=' m 'in' k" :=
  (bind m (fun x => match x with pat => k end))
  (at level 10, pat pattern, m at level 100, k at level 200) : py_scope.
Local Open Scope py_scope.

(** ** Python floats *)

Module Float.

(** Python and numpy floats are binary64 numbers.  A float is kept as the
    rational it denotes, and an operation returns its exact result
    rounded by [fl]: for the code, to the nearest number with a
    significand of 53 bits, ties to the even significand ([round53]).
    The exponent range is not modelled: nothing overflows or underflows,
    so that no result is an infinity or a NaN; the model is the code's
    arithmetic as long as the magnitudes stay between [2 ^ (-1022)] and
    [2 ^ 1024], as the sizes, rates and times of this program do. *)

Definition py_floor (q : Q) : Z := Qnum q / Z.pos (Qden q).

(** To the nearest integer, ties to the even one. *)
Definition nearest_even (q : Q) : Z :=
  let f := py_floor q in
  let r := (q - inject_Z f)%Q in
  if Qlt_bool r (1 # 2) then f
  else if Qlt_bool (1 # 2) r then f + 1
  else if Z.even f then f else f + 1.

(** The binary exponent [floor (log2 x)] of a positive [x]. *)
Definition ilog2 (x : Q) : Z :=
  let k := Z.log2 (Z.pos (Qden x)) + 1 in
  Z.log2 (Qnum x * 2 ^ k / Z.pos (Qden x)) - k.

Definition round53 (x : Q) : Q :=
  if Qeq_bool x 0 then 0%Q
  else
    let e := ilog2 (Qabs x) - 52 in
    Qred (inject_Z (nearest_even (x * 2 ^ (- e))) * 2 ^ e)%Q.

Class Rounding := { fl : Q -> Q }.

Definition binary64 : Rounding := {| fl := round53 |}.

Definition exact : Rounding := {| fl := fun x => x |}.

(** What the statements below need of a rounding: it respects equality
    and order, and it leaves alone the numbers [m * 2 ^ k] whose
    significand [m] fits 53 bits (small integers among them). *)
Class Faithful (R : Rounding) : Prop := {
  fl_proper : forall x y, (x == y)%Q -> (fl x == fl y)%Q;
  fl_mono : forall x y, (0 <= x)%Q -> (x <= y)%Q -> (fl x <= fl y)%Q;
  fl_exact : forall m k : Z,
    0 <= m < 2 ^ 53 -> (fl (inject_Z m * 2 ^ k) == inject_Z m * 2 ^ k)%Q;
  fl_positive : forall x, (0 < x)%Q -> (0 < fl x)%Q
}.

Section Operations.
Context {R : Rounding}.

(** [float(n)], also where an [int] operand meets a float one. *)
Definition float_of_int (n : Z) : Q := fl (inject_Z n).

Definition f_add (a b : Q) : Q := fl (a + b)%Q.
Definition f_sub (a b : Q) : Q := fl (a - b)%Q.
Definition f_mul (a b : Q) : Q := fl (a * b)%Q.

(** [a / b] for a divisor that is not zero. *)
Definition f_div (a b : Q) : Q := fl (a / b)%Q.

(** [a / b] on two [int]s: the quotient, correctly rounded. *)
Definition int_div (a b : Z) : Q := fl (inject_Z a / inject_Z b)%Q.

End Operations.

End Float.

Export Float.

(** ** Arrays: a shape and the row-major data *)

Module Tensor.

Record tensor (A : Type) := MkTensor { shape : list Z; data : list A }.
Arguments MkTensor {A} _ _.
Arguments shape {A} _.
Arguments data {A} _.

Definition numel (s : list Z) : Z := foldr Z.mul 1 s.

(** The data fills the shape exactly. *)
Definition well_formed {A} (t : tensor A) : Prop :=
  Forall (fun d => 0 <= d) (shape t) /\
  Z.of_nat (length (data t)) = numel (shape t).

Definition tmap {A B} (f : A -> B) (t : tensor A) : tensor B :=
  MkTensor (shape t) (f <$> data t).

(** Elementwise binary operation on two arrays of one shape. *)
Definition tmap2 {A B C} (f : A -> B -> C) (a : tensor A) (b : tensor B)
  : tensor C :=
  MkTensor (shape a) (zip_with f (data a) (data b)).

(** [np.zeros(shape)] *)
Definition zeros {A} (zero : A) (s : list Z) : tensor A :=
  MkTensor s (replicate (Z.to_nat (numel s)) zero).

(** [jnp.concatenate([x] * 2)] along axis 0 *)
Definition concatenate_twice {A} (x : tensor A) : exn + tensor A :=
  match shape x with
  | [] => inl (LibraryError "zero-dimensional arrays cannot be concatenated")
  | n :: rest => inr (MkTensor (n + n :: rest) (data x ++ data x))
  end.

(** [jnp.concatenate([a, b])] along axis 0 *)
Definition concatenate {A} (a b : tensor A) : exn + tensor A :=
  match shape a, shape b with
  | n :: ra, m :: rb =>
      if decide (ra = rb)
      then inr (MkTensor (n + m :: ra) (data a ++ data b))
      else inl (LibraryError "concatenate: dimensions must match off axis 0")
  | _, _ => inl (LibraryError "zero-dimensional arrays cannot be concatenated")
  end.

(** [jnp.split(x, 2, axis=0)]: two equal halves along the batch axis. *)
Definition split2 {A} (x : tensor A) : exn + (tensor A * tensor A) :=
  match shape x with
  | [] => inl (LibraryError "split: axis 0 out of range")
  | n :: rest =>
      if decide (n mod 2 = 0)
      then
        let k := Z.to_nat (n / 2 * numel rest) in
        inr (MkTensor (n / 2 :: rest) (take k (data x)),
             MkTensor (n / 2 :: rest) (drop k (data x)))
      else inl (LibraryError "split: array does not divide evenly")
  end.

(** [x.reshape(s)]: same data, new shape, same number of elements. *)
Definition reshape {A} (s : list Z) (x : tensor A) : exn + tensor A :=
  if decide (numel s = numel (shape x))
  then inr (MkTensor s (data x))
  else inl (LibraryError "cannot reshape array").

(** [x[i]] along axis 0, for [0 <= i]. *)
Definition get0 {A} (x : tensor A) (i : Z) : exn + tensor A :=
  match shape x with
  | [] => inl IndexError
  | n :: rest =>
      if decide (0 <= i < n)
      then
        let sz := Z.to_nat (numel rest) in
        inr (MkTensor rest (take sz (drop (Z.to_nat i * sz) (data x))))
      else inl IndexError
  end.

(** A trailing-axes broadcast of [v] to shape [s]: [v] is tiled along the
    leading axes [s] has in addition. *)
Definition broadcast_to {A} (s : list Z) (v : tensor A) : exn + list A :=
  let lead := (length s - length (shape v))%nat in
  if decide (drop lead s = shape v)
  then inr (mjoin (replicate (Z.to_nat (numel (take lead s))) (data v)))
  else inl (LibraryError "could not broadcast input array").

(** [x[i] = v] along axis 0, for [0 <= i]; [v] is cast by [cast] and
    broadcast to the shape of the slot. *)
Definition set0 {A B} (cast : B -> A) (x : tensor A) (i : Z) (v : tensor B)
  : exn + tensor A :=
  match shape x with
  | [] => inl IndexError
  | n :: rest =>
      if decide (0 <= i < n)
      then
        match broadcast_to rest v with
        | inl e => inl e
        | inr vs =>
            let sz := Z.to_nat (numel rest) in
            let k := (Z.to_nat i * sz)%nat in
            inr (MkTensor (shape x)
                   (take k (data x) ++ (cast <$> vs) ++ drop (k + sz) (data x)))
        end
      else inl IndexError
  end.

(** [x[i] = v] on a numpy array that may not own writable memory.
    [np.asarray] of a jax array is a read-only view of its buffer, and
    numpy refuses an assignment to it ([ValueError: assignment
    destination is read-only]) before it looks at the index or at [v]. *)
Definition set0_on {A B} (writeable : bool) (cast : B -> A) (x : tensor A)
    (i : Z) (v : tensor B) : exn + tensor A :=
  if writeable then set0 cast x i v
  else inl (LibraryError "assignment destination is read-only").

End Tensor.

Export Tensor.

(** ** utils/utils.py *)

Module Utils.

(** PIL images are kept symbolic: their size [(width, height)], their mode
    and the operations that built them. *)
Inductive pil_mode := RGB | RGBA | L | LA | OtherMode (bands : Z).

Inductive pil_filter := NEAREST | BILINEAR | LANCZOS.

Inductive pil_pixels :=
| FromFile (path : string)
| FromArray (arr : tensor Z)
| Resized (src : pil_pixels) (new_size : Z * Z) (filter : pil_filter)
| Pasted (base over : pil_pixels) (box : Z * Z) (mask : option pil_pixels).

Record pil_image :=
  MkImage { size : Z * Z; mode : pil_mode; pixels : pil_pixels }.

(** What a path of the file system can hold. *)
Inductive file :=
| Picture (img : pil_image)
| Animation (frames : list (tensor Z)) (fps : Z).

(** [Image.open(path)] *)
Definition Image_open (disk : gmap string file) (path : string)
  : exn + pil_image :=
  match disk !! path with
  | Some (Picture img) => inr img
  | Some (Animation _ _) => inl (LibraryError "UnidentifiedImageError")
  | None => inl (LibraryError "FileNotFoundError")
  end.

(** [img.resize(size, filter)]; PIL refuses empty target sizes. *)
Definition resize (img : pil_image) (new_size : Z * Z) (filter : pil_filter)
  : exn + pil_image :=
  if decide (1 <= new_size.1 /\ 1 <= new_size.2)
  then inr (MkImage new_size (mode img) (Resized (pixels img) new_size filter))
  else inl (LibraryError "height and width must be > 0").

(** [Image.fromarray(arr)] for a height x width x bands array of bytes:
    PIL knows arrays of 2, 3 and 4 bands and raises [TypeError] for any
    other number. *)
Definition fromarray (H W bands : Z) (arr : tensor Z) : exn + pil_image :=
  if decide (bands = 3) then inr (MkImage (W, H) RGB (FromArray arr))
  else if decide (bands = 4) then inr (MkImage (W, H) RGBA (FromArray arr))
  else if decide (bands = 2) then inr (MkImage (W, H) LA (FromArray arr))
  else inl (LibraryError "Cannot handle this data type").

(** [base.paste(over, box, mask)] (in place on [base]) *)
Definition paste (base over : pil_image) (box : Z * Z)
    (mask : option pil_image) : pil_image :=
  MkImage (size base) (mode base)
    (Pasted (pixels base) (pixels over) box (pixels <$> mask)).

Definition default_boundary : Z := 5.

Section WithRounding.
Context {R : Rounding}.

(** The default [wm_rel_size=1/16]. *)
Definition default_wm_rel_size : Q := int_div 1 16.

(** The watermark after scaling: [wmsize] goes to the width of a
    watermark that is taller than wide, and to the height otherwise. *)
Definition scale_watermark (watermark : pil_image) (wmsize : Z)
  : exn + pil_image :=
  let '(w_0, h_0) := size watermark in
  if decide (w_0 = 0) then inl ZeroDivisionError
  else
    let aspect := int_div h_0 w_0 in
    if Qlt_bool 1 aspect
    then resize watermark
           (wmsize, py_int (f_mul aspect (float_of_int wmsize))) LANCZOS
    else if Qeq_bool aspect 0 then inl ZeroDivisionError
    else resize watermark
           (py_int (f_div (float_of_int wmsize) aspect), wmsize) LANCZOS.

Definition add_watermark (disk : gmap string file) (image : tensor Z)
    (watermark_path : string) (wm_rel_size : Q) (boundary : Z)
  : exn + pil_image :=
  match Image_open disk watermark_path with
  | inl e => inl e
  | inr watermark =>
      match shape image with
      | [H; W; bands] =>
          let wmsize :=
            py_int (f_mul (float_of_int (Z.max H W)) wm_rel_size) in
          match scale_watermark watermark wmsize with
          | inl e => inl e
          | inr watermark =>
              let '(w, h) := size watermark in
              let loc_h := H - h - boundary in
              let loc_w := W - w - boundary in
              match fromarray H W bands image with
              | inl e => inl e
              | inr image =>
                  let mask :=
                    match mode watermark with
                    | RGBA | LA => Some watermark
                    | _ => None
                    end in
                  inr (paste image watermark (loc_w, loc_h) mask)
              end
          end
      | _ => inl UnpackError
      end
  end.

End WithRounding.

(** The scaled watermark and the paste box, read back from the result. *)
Definition pasted_size (img : pil_image) : option (Z * Z) :=
  match pixels img with
  | Pasted _ (Resized _ sz _) _ _ => Some sz
  | _ => None
  end.

Definition pasted_box (img : pil_image) : option (Z * Z) :=
  match pixels img with
  | Pasted _ _ box _ => Some box
  | _ => None
  end.

(** *** prepare_video *)

(** What [decord.VideoReader] exposes: [len(vr)], the average frame rate
    and the size of the decoded frames. *)
Record video_reader :=
  MkReader { vr_len : Z; vr_avg_fps : Q; vr_height : Z; vr_width : Z }.

(** The returned array, symbolically: the source frames it was decoded
    from (in order), the size they were resized to, and whether the values
    were mapped to [-1, 1]. *)
Record video :=
  MkVideo { frames_of : list Z; height_of : Z; width_of : Z;
            normalized : bool }.

(** [np.round]: to the nearest integer, ties to the even one. *)
Definition np_round (q : Q) : Z := nearest_even q.

(** [vr.get_batch(indices)] accepts the positions of the video, counted
    from the end when negative, and raises [IndexError] on any other. *)
Definition valid_index (len idx : Z) : bool :=
  let idx := if idx <? 0 then idx + len else idx in
  (0 <=? idx) && (idx <? len).

Definition resolve_output_fps (initial_fps : Q) (output_fps : Z) : Z :=
  if decide (output_fps = -1) then py_int initial_fps else output_fps.

Section VideoWithRounding.
Context {R : Rounding}.

(** [np.linspace(start, stop, num, endpoint=False)] on [int] bounds:
    [arange(0, num) * step + start] for [step = (stop - start) / num], in
    floats. *)
Definition linspace (start stop num : Z) : list Q :=
  let delta := f_sub (float_of_int stop) (float_of_int start) in
  let step := f_div delta (float_of_int num) in
  (fun i => f_add (f_mul (float_of_int i) step) (float_of_int start))
    <$> seqZ 0 num.

Definition resolve_end_t (len : Z) (initial_fps : Q) (end_t : Q) : Q :=
  if Qeq_bool end_t (-1) then f_div (float_of_int len) initial_fps
  else py_min (f_div (float_of_int len) initial_fps) end_t.

(** The frames are decoded and then resized by torchvision's [Resize],
    which raises on a target side below 1.  A batch of no index at all is
    passed on as it is. *)
Definition prepare_video {Dev Dt : Type}
    (videos : gmap string video_reader) (video_path : string)
    (resolution : Z) (device : Dev) (dtype : Dt) (normalize : bool)
    (start_t end_t : Q) (output_fps : Z) : exn + (video * Z) :=
  match videos !! video_path with
  | None => inl (LibraryError "cannot open video")
  | Some vr =>
      let initial_fps := vr_avg_fps vr in
      let output_fps := resolve_output_fps initial_fps output_fps in
      if Qeq_bool initial_fps 0 then inl ZeroDivisionError
      else
        let end_t := resolve_end_t (vr_len vr) initial_fps end_t in
        if negb (Qle_bool 0 start_t && Qlt_bool start_t end_t)
        then inl (InvalidInput "assert 0 <= start_t < end_t")
        else if negb (bool_decide (output_fps > 0))
        then inl (InvalidInput "assert output_fps > 0")
        else
          let start_f_ind := py_int (f_mul start_t initial_fps) in
          let end_f_ind := py_int (f_mul end_t initial_fps) in
          let num_f :=
            py_int (f_mul (f_sub end_t start_t) (float_of_int output_fps)) in
          let sample_idx := py_int <$> linspace start_f_ind end_f_ind num_f in
          if negb (forallb (valid_index (vr_len vr)) sample_idx)
          then inl IndexError
          else
            let h := vr_height vr in
            let w := vr_width vr in
            if decide (Z.max h w = 0) then inl ZeroDivisionError
            else
              let k :=
                f_div (float_of_int resolution) (float_of_int (Z.max h w)) in
              let h := f_mul (float_of_int h) k in
              let w := f_mul (float_of_int w) k in
              let h := np_round (f_div h 64) * 64 in
              let w := np_round (f_div w 64) * 64 in
              if decide (1 <= h /\ 1 <= w)
              then inr (MkVideo sample_idx h w normalize, output_fps)
              else inl (LibraryError
                          "Resize: output sizes should be greater than 0")
  end.

End VideoWithRounding.

(** *** post_process_gif *)

(** What imageio takes for a frame: a two-dimensional array, or a
    three-dimensional one of 1, 3 or 4 channels. *)
Definition is_frame (frame : tensor Z) : bool :=
  match shape frame with
  | [h; w] => (0 <? h) && (0 <? w)
  | [h; w; c] =>
      (0 <? h) && (0 <? w) && bool_decide (c = 1 \/ c = 3 \/ c = 4)
  | _ => false
  end.

(** [imageio.mimsave(path, frames, fps=fps)]: the frames are written one
    after the other, and imageio raises when there is nothing to write or
    when a frame is not an image. *)
Definition mimsave (path : string) (frames : list (tensor Z)) (fps : Z)
    (disk : gmap string file) : exn + gmap string file :=
  match frames with
  | [] => inl (LibraryError "Zero images were written.")
  | _ =>
      if forallb is_frame frames
      then inr (<[path := Animation frames fps]> disk)
      else inl (LibraryError "Image must be 2D (grayscale, RGB, or RGBA)")
  end.

Definition post_process_gif {Res : Type} (list_of_results : list (tensor Z))
    (image_resolution : Res) (disk : gmap string file)
  : exn + (string * gmap string file) :=
  let output_file := "/tmp/ddxk.gif" in
  match mimsave output_file list_of_results 4 disk with
  | inl e => inl e
  | inr disk => inr (output_file, disk)
  end.

End Utils.

(** ** app.py *)

Module App.

(** [os.environ] *)
Definition environ_get (environ : gmap string string) (name : string)
  : option string := environ !! name.

(** [on_huggingspace] holds the author name when the variable is set and
    [False] otherwise. *)
Definition on_huggingspace (environ : gmap string string) : pyval :=
  let huggingspace_name := environ_get environ "SPACE_AUTHOR_NAME" in
  match huggingspace_name with
  | Some name => PyStr name
  | None => PyBool false
  end.

(** Truth value of a Python object in an [if]. *)
Definition truthy (v : pyval) : bool :=
  match v with
  | PyNone => false
  | PyBool b => b
  | PyInt z => negb (z =? 0)
  | PyFloat q => negb (Qeq_bool q 0)
  | PyStr s => negb (String.eqb s "")
  | PyList l => negb (bool_decide (l = []))
  | PyTuple l => negb (bool_decide (l = []))
  end.

(** What the shell does to the UI framework, in program order.  Keyword
    arguments that are not passed are [None] (the framework's default). *)
Inductive ui_action :=
| NewModel (device dtype : string)
| DuplicateBanner
| Tab (title : string)
| Queue (max_size : option Z) (api_open : option bool)
| Launch (file_directories : option (list string)) (share : option bool)
    (debug : option bool)
| PrintLink.

Definition main (environ : gmap string string) (public_access : bool)
  : list ui_action :=
  let on_hs := on_huggingspace environ in
  [NewModel "cuda" "float16"]
  ++ (if truthy on_hs then [DuplicateBanner] else [])
  ++ [Tab "Control Animation"; Tab "Zero-Shot Text2Video";
      Tab "Pose Conditional"]
  ++ (if truthy on_hs
      then [Queue (Some 20) None; Launch None None (Some true)]
      else [Queue None (Some false);
            Launch (Some ["temporal"]) (Some public_access) (Some true);
            PrintLink]).

(** The two launch behaviours named by the specification. *)
Definition managed_launch : list ui_action :=
  [NewModel "cuda" "float16"; DuplicateBanner;
   Tab "Control Animation"; Tab "Zero-Shot Text2Video"; Tab "Pose Conditional";
   Queue (Some 20) None; Launch None None (Some true)].

Definition local_launch (public_access : bool) : list ui_action :=
  [NewModel "cuda" "float16";
   Tab "Control Animation"; Tab "Zero-Shot Text2Video"; Tab "Pose Conditional";
   Queue None (Some false);
   Launch (Some ["temporal"]) (Some public_access) (Some true);
   PrintLink].

End App.

(** ** numpy broadcasting of elementwise operations *)

Module Broadcast.

(** Shapes are aligned on their trailing axes; the functions below work on
    reversed shapes (innermost axis first). *)
Fixpoint broadcast_rev (a b : list Z) : option (list Z) :=
  match a, b with
  | [], _ => Some b
  | _, [] => Some a
  | x :: a', y :: b' =>
      match broadcast_rev a' b' with
      | None => None
      | Some s =>
          if decide (x = y) then Some (x :: s)
          else if decide (x = 1) then Some (y :: s)
          else if decide (y = 1) then Some (x :: s)
          else None
      end
  end.

Definition broadcast_shapes (a b : list Z) : option (list Z) :=
  reverse <$> broadcast_rev (reverse a) (reverse b).

(** Coordinates (innermost first) of the row-major position [k]. *)
Fixpoint unravel_rev (k : Z) (srev : list Z) : list Z :=
  match srev with
  | [] => []
  | d :: s' => k mod d :: unravel_rev (k / d) s'
  end.

(** Row-major position of coordinates in an operand of reversed shape
    [srev]: axes of extent 1 are repeated, axes the operand does not have
    are ignored. *)
Fixpoint ravel_rev (coords srev : list Z) : Z :=
  match coords, srev with
  | c :: cs, d :: s' => (if decide (d = 1) then 0 else c) + d * ravel_rev cs s'
  | _, _ => 0
  end.

Definition broadcast_get {A} (t : tensor A) (srev : list Z) (k : Z)
  : option A :=
  data t !! Z.to_nat (ravel_rev (unravel_rev k srev) (reverse (shape t))).

(** [f(a, b)] elementwise with broadcasting, as [a + b], [a - b], [a * b]
    on arrays. *)
Definition broadcast2 {A B C} (f : A -> B -> C) (a : tensor A) (b : tensor B)
  : exn + tensor C :=
  match broadcast_shapes (shape a) (shape b) with
  | None => inl (LibraryError "operands could not be broadcast together")
  | Some s =>
      inr (MkTensor s
             (omap (fun k =>
                      match broadcast_get a (reverse s) k,
                            broadcast_get b (reverse s) k with
                      | Some x, Some y => Some (f x y)
                      | _, _ => None
                      end)
                   (seqZ 0 (numel s))))
  end.

End Broadcast.

Export Broadcast.

(** ** custom_pipeline.py *)

Module Pipeline.

(** Set to [true] to use a Python [for] loop instead of [jax.lax.fori_loop]. *)
Definition DEBUG : bool := false.

(** *** The external components *)

(** The CLIP tokenizer.  [bpe] is its byte-pair encoding of a text; a call
    with [padding="max_length"] frames the tokens with the begin and end
    markers and pads with the padding token, and [truncation=True] first
    cuts the tokens so that the framed sequence fits [max_length]. *)
Class Tokenizer := {
  bpe : string -> list Z;
  bos_token_id : Z;
  eos_token_id : Z;
  pad_token_id : Z;
  model_max_length : Z;
  (** What a call returns for a list that holds something other than
      strings, given the maximum length and the truncation switch: the
      rows of a batch of text pairs or of pretokenized texts, or the
      exception the tokenizer raises. *)
  encode_nested : list pyval -> Z -> bool -> exn + list (list Z)
}.

(** The pluggable noise scheduler: any of the four variants. *)
Class Scheduler (float SchedulerState : Type) := {
  set_timesteps : SchedulerState -> Z -> list Z -> SchedulerState;
  timesteps : SchedulerState -> list Z;
  init_noise_sigma : SchedulerState -> float;
  scale_model_input : SchedulerState -> tensor float -> Z -> tensor float;
  step : SchedulerState -> tensor float -> Z -> tensor float
         -> tensor float * SchedulerState
}.

(** Floating-point scalars with the operations the pipeline applies to
    them, and the pretrained networks. *)
Class Models := {
  float : Type;
  r_add : float -> float -> float;
  r_sub : float -> float -> float;
  r_mul : float -> float -> float;
  r_div : float -> float -> float;
  r_const : Q -> float;
  r_clip : float -> float -> float -> float;
  round_uint8 : float -> Z;
  of_uint8 : Z -> float;
  Weights : Type;
  PRNGKey : Type;
  SchedulerState : Type;
  tokenizer :: Tokenizer;
  scheduler :: Scheduler float SchedulerState;
  shard : tensor float -> tensor float;
  text_encoder : Weights -> tensor Z -> tensor float;
  random_normal : PRNGKey -> list Z -> tensor float;
  controlnet_apply :
    Weights -> tensor float -> tensor Z -> tensor float -> tensor float
    -> tensor float -> list (tensor float) * tensor float;
  unet_apply :
    Weights -> tensor float -> tensor Z -> tensor float
    -> list (tensor float) -> tensor float -> tensor float;
  unet_in_channels : Z;
  vae_decode : Weights -> tensor float -> tensor float;
  vae_scaling_factor : float;
  vae_block_out_channels : list Z;
  feature_extractor : tensor Z -> tensor float;
  safety_checker : option (Weights -> tensor float -> list bool)
}.

Section WithModels.

Context `{Models}.

(** The parameter bundle [params]. *)
Record Params := MkParams {
  p_text_encoder : Weights;
  p_controlnet : Weights;
  p_unet : Weights;
  p_scheduler : SchedulerState;
  p_vae : Weights;
  p_safety_checker : Weights
}.

(** [self.vae_scale_factor] *)
Definition vae_scale_factor : Z :=
  2 ^ (Z.of_nat (length vae_block_out_channels) - 1).

(** *** prepare_text_inputs *)

(** One row of [input_ids]. *)
Definition encode (max_length : Z) (truncation : bool) (text : string)
  : list Z :=
  let toks := bpe text in
  let toks :=
    if truncation then take (Z.to_nat (max_length - 2)) toks else toks in
  let ids := bos_token_id :: toks ++ [eos_token_id] in
  ids ++ replicate (Z.to_nat max_length - length ids) pad_token_id.

(** [return_tensors="np"]: the rows as one integer array. *)
Definition np_array (rows : list (list Z)) : exn + tensor Z :=
  match rows with
  | [] => inr (MkTensor [0] [])
  | r :: _ =>
      if forallb (fun r' => Nat.eqb (length r') (length r)) rows
      then inr (MkTensor [Z.of_nat (length rows); Z.of_nat (length r)]
                  (concat rows))
      else inl (LibraryError "unable to create tensor: rows differ in length")
  end.

Definition as_str (v : pyval) : option string :=
  match v with PyStr s => Some s | _ => None end.

(** [self.tokenizer(prompt, padding="max_length", max_length=...,
    truncation=..., return_tensors="np").input_ids].  A batch needs at
    least one text: on the empty list the tokenizer raises
    ([ValueError]). *)
Definition tokenizer_call (prompt : pyval) (max_length : Z)
    (truncation : bool) : M (tensor Z) :=
  match prompt with
  | PyStr s =>
      let* ids := lift (np_array [encode max_length truncation s]) in
      call EvTokenizer ids
  | PyList [] => raise (LibraryError "the tokenizer got an empty batch")
  | PyList l =>
      match mapM as_str l with
      | Some texts =>
          let* ids :=
            lift (np_array (encode max_length truncation <$> texts)) in
          call EvTokenizer ids
      | None =>
          let* rows := lift (encode_nested l max_length truncation) in
          let* ids := lift (np_array rows) in
          call EvTokenizer ids
      end
  | _ => raise (LibraryError "text input must be of type str")
  end.

Definition prepare_text_inputs (prompt : pyval) : M (tensor Z) :=
  match prompt with
  | PyStr _ | PyList _ => tokenizer_call prompt model_max_length true
  | _ => raise (InvalidInput "`prompt` has to be of type `str` or `list`")
  end.

(** *** _generate *)

(** [a, b = x.shape[-2:]] *)
Definition last_two (s : list Z) : exn + (Z * Z) :=
  match reverse s with
  | w :: h :: _ => inr (h, w)
  | _ => inl UnpackError
  end.

(** [a, b = x.shape[:2]] *)
Definition first_two (s : list Z) : exn + (Z * Z) :=
  match s with
  | a :: b :: _ => inr (a, b)
  | _ => inl UnpackError
  end.

(** [x.shape[0]] and [x.shape[-1]] *)
Definition shape_first (s : list Z) : exn + Z :=
  match s with
  | a :: _ => inr a
  | [] => inl IndexError
  end.

Definition shape_last (s : list Z) : exn + Z :=
  match reverse s with
  | a :: _ => inr a
  | [] => inl IndexError
  end.

(** [xs[i]] on a jax array: negative positions count from the end and
    positions past either end are clamped. *)
Definition jnp_index (xs : list Z) (i : Z) : exn + Z :=
  let n := Z.of_nat (length xs) in
  let i := if decide (i < 0) then i + n else i in
  let i := Z.max 0 (Z.min i (n - 1)) in
  match xs !! Z.to_nat i with
  | Some x => inr x
  | None => inl IndexError
  end.

Definition latents_shape (batch_size height width : Z) : list Z :=
  [batch_size; unet_in_channels;
   height / vae_scale_factor; width / vae_scale_factor].

(** [noise_pred_uncond + guidance_scale * (noise_prediction_text -
    noise_pred_uncond)] *)
Definition guide (guidance_scale noise_pred_uncond noise_prediction_text
    : tensor float) : exn + tensor float :=
  match broadcast2 r_sub noise_prediction_text noise_pred_uncond with
  | inl e => inl e
  | inr diff =>
      match broadcast2 r_mul guidance_scale diff with
      | inl e => inl e
      | inr scaled => broadcast2 r_add noise_pred_uncond scaled
      end
  end.

(** The denoiser's prediction on the doubled batch, as computed in
    [loop_body] before guidance. *)
Definition predict_noise (params : Params) (context image : tensor float)
    (controlnet_conditioning_scale : tensor float)
    (scheduler_state : SchedulerState) (latents_input : tensor float)
    (t : Z) : M (tensor float) :=
  let* batch := lift (shape_first (shape latents_input)) in
  let timestep := MkTensor [batch] (replicate (Z.to_nat batch) t) in
  let* latents_input :=
    call EvScaleModelInput
      (scale_model_input scheduler_state latents_input t) in
  let* '(down_block_res_samples, mid_block_res_sample) :=
    call EvControlNet
      (controlnet_apply (p_controlnet params) latents_input timestep context
         image controlnet_conditioning_scale) in
  call EvUNet
    (unet_apply (p_unet params) latents_input timestep context
       down_block_res_samples mid_block_res_sample).

Definition loop_body (params : Params) (context image : tensor float)
    (guidance_scale controlnet_conditioning_scale : tensor float)
    (step_index : Z) (args : tensor float * SchedulerState)
  : M (tensor float * SchedulerState) :=
  let '(latents, scheduler_state) := args in
  let* latents_input := lift (concatenate_twice latents) in
  let* t := lift (jnp_index (timesteps scheduler_state) step_index) in
  let* noise_pred :=
    predict_noise params context image controlnet_conditioning_scale
      scheduler_state latents_input t in
  let* '(noise_pred_uncond, noise_prediction_text) :=
    lift (split2 noise_pred) in
  let* noise_pred :=
    lift (guide guidance_scale noise_pred_uncond noise_prediction_text) in
  call EvSchedulerStep (step scheduler_state noise_pred t latents).

(** The iterations of a loop from [i] on: [body_fun] is applied to [i],
    [i + 1], ..., [count] times, threading the value. *)
Fixpoint fori_loop_from {S} (count : nat) (i : Z) (body_fun : Z -> S -> M S)
    (val : S) : M S :=
  match count with
  | O => ret val
  | Datatypes.S count' =>
      let* val := body_fun i val in
      fori_loop_from count' (i + 1) body_fun val
  end.

(** [jax.lax.fori_loop(lower, upper, body_fun, init_val)].  jax first
    stages [body_fun] out: it runs it once on abstract values of the type
    of [init_val], whatever the trip count, before anything is computed.
    An exception raised while staging leaves [fori_loop]; the exceptions
    of a body depend on the shapes of its arguments only, here those of
    [init_val] (a traced index never raises, it is clamped).  The value
    the body returns must have the type of the one it got: [aval] is the
    part of that type the embedding sees.  The staged body is then
    applied to [lower], [lower + 1], ... below [upper]. *)
Definition fori_loop {S T} `{EqDecision T} (aval : S -> T) (lower upper : Z)
    (body_fun : Z -> S -> M S) (init_val : S) : M S :=
  match outcome (body_fun lower init_val) with
  | inl e => raise e
  | inr val =>
      if decide (aval val = aval init_val)
      then fori_loop_from (Z.to_nat (upper - lower)) lower body_fun init_val
      else raise (LibraryError
                    "body_fun output and input must have identical types")
  end.

(** The denoising loop under either setting of the [DEBUG] switch.  Of
    the type of the loop value the shape of the latents is kept; the
    leaves of the scheduler state are the scheduler's own. *)
Definition denoise (debug : bool) (num_inference_steps : Z)
    (body : Z -> tensor float * SchedulerState
            -> M (tensor float * SchedulerState))
    (latents : tensor float) (scheduler_state : SchedulerState)
  : M (tensor float) :=
  if debug
  then
    let* '(latents, scheduler_state) :=
      for_each (range num_inference_steps) body (latents, scheduler_state) in
    ret latents
  else
    let* '(latents, _) :=
      fori_loop (fun val => shape val.1) 0 num_inference_steps body
        (latents, scheduler_state) in
    ret latents.

(** [x.transpose(0, 2, 3, 1)] *)
Definition transpose_0231 {A} (x : tensor A) : exn + tensor A :=
  match shape x with
  | [n; c; h; w] =>
      inr (MkTensor [n; h; w; c]
             (omap (fun k => data x !! Z.to_nat k)
                (i ← seqZ 0 n; y ← seqZ 0 h; x' ← seqZ 0 w; ch ← seqZ 0 c;
                 [((i * c + ch) * h + y) * w + x'])))
  | _ => inl (LibraryError "axes do not match array")
  end.

(** The latents the loop starts from, before scaling. *)
Definition initial_latents (prng_seed : PRNGKey) (expected : list Z)
    (latents : option (tensor float)) : M (tensor float) :=
  match latents with
  | None => call EvRandomNormal (random_normal prng_seed expected)
  | Some latents =>
      if decide (shape latents <> expected)
      then raise (ShapeMismatch (shape latents) expected)
      else ret latents
  end.

(** The text conditioning: the batch size read off [prompt_ids] and the
    embeddings of the negative prompt followed by those of the prompt. *)
Definition text_context (prompt_ids : tensor Z) (params : Params)
    (neg_prompt_ids : option (tensor Z)) : M (Z * tensor float) :=
  let* prompt_embeds :=
    call EvTextEncoder
      (shard (text_encoder (p_text_encoder params) prompt_ids)) in
  let* batch_size := lift (shape_first (shape prompt_ids)) in
  let* max_length := lift (shape_last (shape prompt_ids)) in
  let* uncond_input :=
    match neg_prompt_ids with
    | None =>
        tokenizer_call
          (PyList (replicate (Z.to_nat batch_size) (PyStr "")))
          max_length false
    | Some neg_prompt_ids => ret neg_prompt_ids
    end in
  let* negative_prompt_embeds :=
    call EvTextEncoder
      (shard (text_encoder (p_text_encoder params) uncond_input)) in
  let* context := lift (concatenate negative_prompt_embeds prompt_embeds) in
  ret (batch_size, context).

Definition _generate_with (debug : bool) (prompt_ids : tensor Z)
    (image : tensor float) (params : Params) (prng_seed : PRNGKey)
    (num_inference_steps : Z) (guidance_scale : tensor float)
    (latents : option (tensor float)) (neg_prompt_ids : option (tensor Z))
    (controlnet_conditioning_scale : tensor float) : M (tensor float) :=
  let* '(height, width) := lift (last_two (shape image)) in
  if decide (height mod 64 <> 0 \/ width mod 64 <> 0)
  then raise (InvalidInput "`height` and `width` have to be divisible by 64")
  else
    let* '(batch_size, context) :=
      text_context prompt_ids params neg_prompt_ids in
    let* image := lift (concatenate_twice image) in
    let expected := latents_shape batch_size height width in
    let* latents := initial_latents prng_seed expected latents in
    let* scheduler_state :=
      call EvSetTimesteps
        (set_timesteps (p_scheduler params) num_inference_steps expected) in
    let latents :=
      tmap (fun x => r_mul x (init_noise_sigma (p_scheduler params)))
        latents in
    let* latents :=
      denoise debug num_inference_steps
        (loop_body params context image guidance_scale
           controlnet_conditioning_scale)
        latents scheduler_state in
    let latents :=
      tmap (r_mul (r_div (r_const 1) vae_scaling_factor)) latents in
    let* image := call EvVaeDecode (vae_decode (p_vae params) latents) in
    let image :=
      tmap (fun x =>
              r_clip (r_add (r_div x (r_const 2)) (r_const (1 # 2)))
                (r_const 0) (r_const 1))
        image in
    lift (transpose_0231 image).

Definition _generate := _generate_with DEBUG.

(** The external calls [_generate] makes before its loop starts. *)
Definition setup_call (e : event) : Prop :=
  e = EvTextEncoder \/ e = EvTokenizer \/ e = EvRandomNormal
  \/ e = EvSetTimesteps.

(** *** prepare_image_inputs *)

(** What a caller can pass as [image]: a PIL image, a list of such
    arguments, or any other Python value. *)
Inductive image_arg :=
| AnImage (img : Utils.pil_image)
| AList (items : list image_arg)
| AnyOther (v : pyval).

(** [jnp.concatenate(arrays)] along axis 0: at least one array is needed. *)
Fixpoint concatenate_onto {A} (acc : tensor A) (arrays : list (tensor A))
  : exn + tensor A :=
  match arrays with
  | [] => inr acc
  | x :: arrays' =>
      match concatenate acc x with
      | inl e => inl e
      | inr acc' => concatenate_onto acc' arrays'
      end
  end.

Definition concatenate_all {A} (arrays : list (tensor A)) : exn + tensor A :=
  match arrays with
  | [] => inl (LibraryError "need at least one array to concatenate")
  | x :: arrays' =>
      match shape x with
      | [] =>
          inl (LibraryError "zero-dimensional arrays cannot be concatenated")
      | _ => concatenate_onto x arrays'
      end
  end.

(** [[f(x) for x in xs]]: the first failure is raised. *)
Fixpoint comprehension {X Y} (f : X -> exn + Y) (xs : list X)
  : exn + list Y :=
  match xs with
  | [] => inr []
  | x :: xs' =>
      match f x with
      | inl e => inl e
      | inr y =>
          match comprehension f xs' with
          | inl e => inl e
          | inr ys => inr (y :: ys)
          end
      end
  end.

(** The helper [preprocess] is defined past the end of the file at hand;
    it is taken as a parameter, from one item to a batch of one image. *)
Definition prepare_image_inputs
    (preprocess : image_arg -> exn + tensor float) (image : image_arg)
  : exn + tensor float :=
  let checked :=
    match image with
    | AnImage _ => inr [image]
    | AList items => inr items
    | AnyOther (PyList items) => inr (AnyOther <$> items)
    | AnyOther _ =>
        inl (InvalidInput "image has to be of type `PIL.Image.Image` or list")
    end in
  match checked with
  | inl e => inl e
  | inr image =>
      match comprehension preprocess image with
      | inl e => inl e
      | inr arrays => concatenate_all arrays
      end
  end.

(** *** The safety checker and [__call__] *)

Definition nsfw_warning : string :=
  "Potential NSFW content was detected in one or more images. A black image will be returned instead. Try again with a different prompt and/or seed.".

(** The loop of [_run_safety_checker] over [enumerate(has_nsfw_concepts)].
    Assignments go to a copy made on the first write, so that the caller's
    array is never written to; here every assignment yields a new array. *)
Definition blacken (has_nsfw_concepts : list bool) (images : tensor Z)
  : M (tensor Z) :=
  for_each (enumerate has_nsfw_concepts)
    (fun '(idx, has_nsfw_concept) images =>
       let* images :=
         if has_nsfw_concept : bool
         then
           let* image := lift (get0 images idx) in
           lift (set0 id images idx (zeros 0 (shape image)))
         else ret images in
       let* _ :=
         if any has_nsfw_concepts
         then call (EvWarn nsfw_warning) tt
         else ret tt in
       ret images)
    images.

(** The replicated classifier [_p_get_has_nsfw_concepts] followed by
    [unshard] is defined past the end of the file at hand; it is taken as
    [p_get_has_nsfw_concepts], from the features and the replicated
    parameters to one flag per image. *)
Definition _run_safety_checker
    (checker : Weights -> tensor float -> list bool)
    (p_get_has_nsfw_concepts : tensor float -> Weights -> list bool)
    (images : tensor Z) (safety_model_params : Weights) (jit : bool)
  : M (tensor Z * list bool) :=
  let* features := call EvFeatureExtractor (feature_extractor images) in
  let* has_nsfw_concepts :=
    call EvSafetyChecker
      (if jit
       then p_get_has_nsfw_concepts (shard features) safety_model_params
       else checker safety_model_params features) in
  let* images := blacken has_nsfw_concepts images in
  ret (images, has_nsfw_concepts).

(** The "block images" loop of [__call__].  [images] is
    [np.asarray(images)] of the array the generator returned, a jax
    array: a view that is not writeable (unlike the copy that
    [_run_safety_checker] makes before its first assignment).  It is
    indexed by the position of the flag. *)
Definition block_images (has_nsfw_concept : list bool)
    (images_uint8_casted : tensor Z) (images : tensor float)
  : M (tensor float) :=
  if any has_nsfw_concept
  then
    for_each (enumerate has_nsfw_concept)
      (fun '(i, is_nsfw) images =>
         if is_nsfw : bool
         then
           let* blocked := lift (get0 images_uint8_casted i) in
           lift (set0_on false of_uint8 images i blocked)
         else ret images)
      images
  else ret images.

(** The bodies of the two loops above, by name: what one iteration does
    to the array for the flag at position [idx]. *)
Definition blacken_body (has_nsfw_concepts : list bool)
    (entry : Z * bool) (images : tensor Z) : M (tensor Z) :=
  let '(idx, has_nsfw_concept) := entry in
  let* images :=
    if has_nsfw_concept : bool
    then
      let* image := lift (get0 images idx) in
      lift (set0 id images idx (zeros 0 (shape image)))
    else ret images in
  let* _ :=
    if any has_nsfw_concepts
    then call (EvWarn nsfw_warning) tt
    else ret tt in
  ret images.

Definition block_body (images_uint8_casted : tensor Z)
    (entry : Z * bool) (images : tensor float) : M (tensor float) :=
  let '(i, is_nsfw) := entry in
  if is_nsfw : bool
  then
    let* blocked := lift (get0 images_uint8_casted i) in
    lift (set0_on false of_uint8 images i blocked)
  else ret images.

(** The part of [__call__] after generation: [images] is what the
    generator returned, [height] and [width] those of the conditioning
    image.  The second component is the list of flags, or [False] without
    a safety checker. *)
Definition safety_stage
    (p_get_has_nsfw_concepts : tensor float -> Weights -> list bool)
    (params : Params) (jit : bool) (height width : Z)
    (images : tensor float) : M (tensor float * pyval) :=
  match safety_checker with
  | Some checker =>
      let safety_params := p_safety_checker params in
      let images_uint8_casted :=
        tmap (fun x => round_uint8 (r_mul x (r_const 255))) images in
      let* '(num_devices, batch_size) := lift (first_two (shape images)) in
      let* images_uint8_casted :=
        lift (reshape [num_devices * batch_size; height; width; 3]
                images_uint8_casted) in
      let* '(images_uint8_casted, has_nsfw_concept) :=
        _run_safety_checker checker p_get_has_nsfw_concepts
          images_uint8_casted safety_params jit in
      let* images :=
        block_images has_nsfw_concept images_uint8_casted images in
      let* images :=
        lift (reshape [num_devices; batch_size; height; width; 3] images) in
      ret (images, PyList (PyBool <$> has_nsfw_concept))
  | None => ret (images, PyBool false)
  end.

(** The flags [__call__] gets for the generated [images]: the answer of
    the classifier for the images cast to uint8 and viewed with the shape
    [flat]. *)
Definition has_nsfw_concept_of
    (checker : Weights -> tensor float -> list bool)
    (p_get_has_nsfw_concepts : tensor float -> Weights -> list bool)
    (params : Params) (jit : bool) (images : tensor float) (flat : list Z)
  : list bool :=
  let features :=
    feature_extractor
      (MkTensor flat
         ((fun x => round_uint8 (r_mul x (r_const 255))) <$> data images)) in
  if jit
  then p_get_has_nsfw_concepts (shard features) (p_safety_checker params)
  else checker (p_safety_checker params) features.

(** The result of a call: the structured output or the plain tuple. *)
Inductive output :=
| FlaxStableDiffusionPipelineOutput (images : tensor float)
    (nsfw_content_detected : pyval)
| OutputTuple (images : tensor float) (has_nsfw_concept : pyval).

(** A [float] argument becomes one copy per leading entry of
    [prompt_ids], as a column when [prompt_ids] looks sharded. *)
Definition per_device (prompt_ids : tensor Z) (x : float + tensor float)
  : exn + tensor float :=
  match x with
  | inr arr => inr arr
  | inl x =>
      match shape_first (shape prompt_ids) with
      | inl e => inl e
      | inr n =>
          let copies := replicate (Z.to_nat n) x in
          let n := Z.of_nat (length copies) in
          if decide (2 < length (shape prompt_ids))%nat
          then inr (MkTensor [n; 1] copies)
          else inr (MkTensor [n] copies)
      end
  end.

(** The type of the replicated generator [_p_generate], which is defined
    past the end of the file at hand. *)
Definition generator : Type :=
  tensor Z -> tensor float -> Params -> PRNGKey -> Z -> tensor float
  -> option (tensor float) -> option (tensor Z) -> tensor float
  -> M (tensor float).

Definition __call__ (_p_generate : generator)
    (p_get_has_nsfw_concepts : tensor float -> Weights -> list bool)
    (prompt_ids : tensor Z) (image : tensor float) (params : Params)
    (prng_seed : PRNGKey) (num_inference_steps : Z)
    (guidance_scale : float + tensor float)
    (latents : option (tensor float)) (neg_prompt_ids : option (tensor Z))
    (controlnet_conditioning_scale : float + tensor float)
    (return_dict jit : bool) : M output :=
  let* '(height, width) := lift (last_two (shape image)) in
  let* guidance_scale := lift (per_device prompt_ids guidance_scale) in
  let* controlnet_conditioning_scale :=
    lift (per_device prompt_ids controlnet_conditioning_scale) in
  let* images :=
    (if jit then _p_generate else _generate)
      prompt_ids image params prng_seed num_inference_steps guidance_scale
      latents neg_prompt_ids controlnet_conditioning_scale in
  let* '(images, has_nsfw_concept) :=
    safety_stage p_get_has_nsfw_concepts params jit height width images in
  if return_dict
  then ret (FlaxStableDiffusionPipelineOutput images has_nsfw_concept)
  else ret (OutputTuple images has_nsfw_concept).

End WithModels.

End Pipeline.

(** ** Concrete inputs and a small executable instance of the components *)

Module Fixtures.

Import Utils App Pipeline.

(** A 200 x 100 logo with an alpha channel and a 1024 x 1024 RGB canvas. *)
Definition wide_watermark_disk : gmap string file :=
  {[ "logo.png" := Picture (MkImage (200, 100) RGBA (FromFile "logo.png")) ]}.

Definition square_canvas : tensor Z := MkTensor [1024; 1024; 3] [].

(** A 93 x 64 logo: its aspect ratio 64 / 93 is not a binary64 number. *)
Definition odd_watermark_disk : gmap string file :=
  {[ "logo.png" := Picture (MkImage (93, 64) RGBA (FromFile "logo.png")) ]}.

(** A clip of 300 frames of 300 x 600 pixels at 29.97 frames per second,
    the rate being the binary64 number next to 29.97. *)
Definition ntsc_rate : Q := Eval vm_compute in round53 (2997 # 100).

Definition ntsc_reader : video_reader := MkReader 300 ntsc_rate 300 600.

Definition ntsc_clip : gmap string video_reader :=
  {[ "clip.mp4" := ntsc_reader ]}.

(** A clip of 98 frames at 24 frames per second: 49/12 seconds, which is
    not a binary64 number. *)
Definition film_reader : video_reader := MkReader 98 24 300 600.

Definition film_clip : gmap string video_reader :=
  {[ "film.mp4" := film_reader ]}.

(** The variable is set, to the empty string. *)
Definition empty_author : gmap string string :=
  {[ "SPACE_AUTHOR_NAME" := "" ]}.

(** A tokenizer that maps every character to its code, with CLIP's
    markers and length. *)
Definition toy_tokenizer : Tokenizer := {|
  bpe := fun s =>
    (fun c => Z.of_nat (Ascii.nat_of_ascii c))
      <$> String.list_ascii_of_string s;
  bos_token_id := 49406;
  eos_token_id := 49407;
  pad_token_id := 49407;
  model_max_length := 77;
  encode_nested := fun _ _ _ =>
    inl (LibraryError "text input must be of type str")
|}.

(** A scheduler that subtracts the predicted noise. *)
Definition toy_scheduler : Scheduler Q (list Z) := {|
  set_timesteps := fun _ n _ => Z.mul 20 <$> reverse (seqZ 0 n);
  timesteps := fun st => st;
  init_noise_sigma := fun _ => 1%Q;
  scale_model_input := fun _ x _ => x;
  step := fun st noise_pred _ latents =>
            (tmap2 Qminus latents noise_pred, st)
|}.

(** Rational scalars, shape-preserving networks, and a safety checker that
    answers [flags]. *)
Definition toy_models (flags : list bool) : Models := {|
  float := Q;
  r_add := Qplus;
  r_sub := Qminus;
  r_mul := Qmult;
  r_div := Qdiv;
  r_const := fun q => q;
  r_clip := fun x lo hi => Qmax lo (Qmin x hi);
  round_uint8 := fun x => np_round x mod 256;
  of_uint8 := inject_Z;
  Weights := unit;
  PRNGKey := Z;
  SchedulerState := list Z;
  tokenizer := toy_tokenizer;
  scheduler := toy_scheduler;
  shard := fun x => x;
  text_encoder := fun _ ids => tmap inject_Z ids;
  random_normal := fun key s =>
    MkTensor s (replicate (Z.to_nat (numel s)) (inject_Z key));
  controlnet_apply := fun _ x _ _ _ _ => ([], x);
  unet_apply := fun _ x _ _ _ _ => x;
  unet_in_channels := 4;
  vae_decode := fun _ x => x;
  vae_scaling_factor := 18215 # 100000;
  vae_block_out_channels := [128; 256; 512; 512];
  feature_extractor := tmap inject_Z;
  safety_checker := Some (fun _ _ => flags)
|}.

Definition toy_params (flags : list bool) : @Params (toy_models flags) :=
  @MkParams (toy_models flags) tt tt tt [] tt tt.

(** [np.full(s, v)] *)
Definition full {A} (s : list Z) (v : A) : tensor A :=
  MkTensor s (replicate (Z.to_nat (numel s)) v).

(** One tokenized prompt, a guidance scale of 7.5 for one device, and
    conditioning images of 64 x 64 and of 300 x 300 pixels. *)
Definition one_prompt : tensor Z := full [1; 77] 1.

Definition single_scale : tensor Q := MkTensor [1] [15 # 2]%Q.

Definition aligned_image : tensor Q := full [1; 3; 64; 64] (1 # 2)%Q.

Definition unaligned_image : tensor Q := MkTensor [1; 3; 300; 300] [].

(** Latents for a 64 x 64 image, and latents of the wrong size. *)
Definition unit_latents : tensor Q := full [1; 4; 8; 8] 1%Q.


(** What one device returns for two prompts: two 64 x 64 images, the
    first filled with [u], the second with [v]. *)
Definition two_images (u v : Q) : tensor Q :=
  MkTensor [1; 2; 64; 64; 3]
    (replicate (Z.to_nat (numel [64; 64; 3])) u
     ++ replicate (Z.to_nat (numel [64; 64; 3])) v).

(** Two tokenized prompts and latents for two 64 x 64 images. *)
Definition two_prompts : tensor Z := full [2; 77] 1.

Definition pair_latents : tensor Q := full [2; 4; 8; 8] 1%Q.

(** Two 2 x 2 images as uint8 arrays, the first filled with [u], the
    second with [v]. *)
Definition uint8_pair (u v : Z) : list (list Z) :=
  [replicate 12 u; replicate 12 v].

(** A 12 x 8 thumbnail and a 4 x 4 picture to condition on. *)
Definition thumbnail : tensor Z := MkTensor [8; 12; 3] [].

Definition small_picture : pil_image :=
  MkImage (4, 4) RGB (FromFile "pose.png").

(** A stand-in for the helper [preprocess]: a batch of one image,
    channels first, every entry one half. *)
Definition grey_preprocess (item : image_arg) : exn + tensor Q :=
  match item with
  | AnImage img => inr (full [1; 3; (size img).2; (size img).1] (1 # 2)%Q)
  | _ => inl (LibraryError "cannot convert to an array")
  end.

End Fixtures.

(** * Properties *)

Import Utils App Pipeline Fixtures.

(** ** The monad *)

Lemma outcome_bind {A B} (m : M A) (f : A -> M B) :
  outcome (bind m f)
  = match outcome m with inl e => inl e | inr a => outcome (f a) end.
Proof. unfold bind. destruct (outcome m); reflexivity. Qed.

Lemma trace_bind {A B} (m : M A) (f : A -> M B) :
  trace (bind m f)
  = trace m ++ match outcome m with inl _ => [] | inr a => trace (f a) end.
Proof.
  unfold bind. destruct (outcome m); simpl; [rewrite app_nil_r|]; reflexivity.
Qed.

Lemma bind_ret_l {A B} (a : A) (f : A -> M B) : bind (ret a) f = f a.
Proof. unfold bind, ret. simpl. destruct (f a); reflexivity. Qed.

Lemma bind_lift_inr {A B} (a : A) (f : A -> M B) :
  bind (lift (inr a)) f = f a.
Proof. apply bind_ret_l. Qed.


Lemma bind_ext {A B} (m : M A) (f g : A -> M B) :
  (forall a, f a = g a) -> bind m f = bind m g.
Proof.
  intros Hfg. unfold bind. destruct (outcome m) as [e|a]; [reflexivity|].
  rewrite Hfg. reflexivity.
Qed.

(** ** Rationals and [int()] *)

Lemma py_int_nonneg (n : Z) (d : positive) :
  0 <= n -> py_int (n # d) = n / Z.pos d.
Proof.
  intros Hn. unfold py_int. simpl. apply Z.quot_div_nonneg; lia.
Qed.

Lemma py_int_floor (q : Q) : (0 <= q)%Q -> py_int q = Qnum q / Z.pos (Qden q).
Proof.
  intros Hq. unfold py_int. apply Z.quot_div_nonneg; [|lia].
  unfold Qle in Hq. simpl in Hq. lia.
Qed.

Lemma py_int_mono (p q : Q) :
  (0 <= p)%Q -> (p <= q)%Q -> py_int p <= py_int q.
Proof.
  intros Hp Hpq. assert (Hq : (0 <= q)%Q) by (eapply Qle_trans; eauto).
  rewrite !py_int_floor by assumption.
  destruct p as [a b], q as [c d]. unfold Qle in *. simpl in *.
  apply Z.div_le_lower_bound; [lia|].
  pose proof (Z.mul_div_le a (Z.pos b) ltac:(lia)). nia.
Qed.

Lemma py_int_pos (q : Q) : (0 <= q)%Q -> 0 <= py_int q.
Proof.
  intros Hq. rewrite py_int_floor by assumption.
  apply Z.div_pos; [|lia]. unfold Qle in Hq. simpl in Hq. lia.
Qed.

Lemma Qlt_bool_iff (a b : Q) : Qlt_bool a b = true <-> (a < b)%Q.
Proof.
  unfold Qlt_bool. rewrite negb_true_iff. split.
  - intros Hf. apply Qnot_le_lt. intros Hle.
    apply Qle_bool_iff in Hle. congruence.
  - intros Hlt. destruct (Qle_bool b a) eqn:E; [|reflexivity].
    apply Qle_bool_iff in E. exfalso. exact (Qlt_not_le _ _ Hlt E).
Qed.

(** ** Floats: rounding to the nearest, ties to even *)

Local Open Scope Q_scope.

(** In integers: for [q = n / d], the result [r] satisfies
    [|2 (r d - n)| <= d], with [r] even when the bound is met. *)
Lemma nearest_even_Z (n : Z) (d : positive) :
  let r := nearest_even (n # d) in
  ((- Z.pos d < 2 * (r * Z.pos d - n) < Z.pos d)%Z
   \/ ((Z.abs (2 * (r * Z.pos d - n)) = Z.pos d)%Z /\ Z.even r = true)).
Proof.
  unfold nearest_even, py_floor. cbn [Qnum Qden].
  set (f := (n / Z.pos d)%Z).
  pose proof (Z.div_mod n (Z.pos d) ltac:(lia)) as Hdm.
  pose proof (Z.mod_pos_bound n (Z.pos d) ltac:(lia)) as Hm.
  fold f in Hdm.
  unfold Qlt_bool, Qle_bool, Qminus, Qplus, Qopp, inject_Z.
  cbn [Qnum Qden].
  repeat match goal with
         | |- context [negb (?a <=? ?b)%Z] =>
             destruct (Z.leb_spec a b); cbn [negb]
         end;
    try (destruct (Z.even f) eqn:Hev); cbv zeta;
    try (left; lia);
    try (right; split; [lia|]; try assumption;
         rewrite Z.even_add, Hev; reflexivity).
Qed.

Lemma nearest_even_spec (q : Q) :
  let r := inject_Z (nearest_even q) in
  (q - (1 # 2) < r /\ r < q + (1 # 2))
  \/ ((r == q - (1 # 2) \/ r == q + (1 # 2))
      /\ Z.even (nearest_even q) = true).
Proof.
  destruct q as [n d]. cbv zeta.
  destruct (nearest_even_Z n d) as [H|[H Hev]].
  - left. unfold Qlt, Qminus, Qplus, Qopp, inject_Z. cbn [Qnum Qden]. lia.
  - right. split; [|exact Hev].
    unfold Qeq, Qminus, Qplus, Qopp, inject_Z. cbn [Qnum Qden]. lia.
Qed.

Lemma nearest_even_near (q : Q) :
  q - (1 # 2) <= inject_Z (nearest_even q)
  /\ inject_Z (nearest_even q) <= q + (1 # 2).
Proof.
  destruct (nearest_even_spec q) as [[H1 H2]|[[H|H] _]].
  - split; apply Qlt_le_weak; assumption.
  - rewrite H. split; [apply Qle_refl|].
    unfold Qle, Qminus, Qplus, Qopp. destruct q. cbn. lia.
  - rewrite H. split; [|apply Qle_refl].
    unfold Qle, Qminus, Qplus, Qopp. destruct q. cbn. lia.
Qed.

Lemma inject_Z_half_gap (a b : Z) (q : Q) :
  inject_Z a <= q + (1 # 2) -> q - (1 # 2) <= inject_Z b ->
  (a <= b + 1)%Z.
Proof.
  destruct q as [n d]. unfold Qle, Qminus, Qplus, Qopp, inject_Z.
  cbn [Qnum Qden]. nia.
Qed.

Lemma nearest_even_order (n n' a b : Z) (d d' : positive) :
  (n * Z.pos d' <= n' * Z.pos d)%Z ->
  ((- Z.pos d < 2 * (a * Z.pos d - n) < Z.pos d)%Z
   \/ ((Z.abs (2 * (a * Z.pos d - n)) = Z.pos d)%Z /\ Z.even a = true)) ->
  ((- Z.pos d' < 2 * (b * Z.pos d' - n') < Z.pos d')%Z
   \/ ((Z.abs (2 * (b * Z.pos d' - n')) = Z.pos d')%Z
       /\ Z.even b = true)) ->
  (a <= b)%Z.
Proof.
  intros Hxy Hx Hy.
  destruct (Z_le_gt_dec a b) as [|Hgt]; [assumption|exfalso].
  set (A := (2 * (a * Z.pos d - n))%Z) in *.
  set (B := (2 * (b * Z.pos d' - n'))%Z) in *.
  assert (Hlow : (2 * (Z.pos d * Z.pos d') <= A * Z.pos d' - B * Z.pos d)%Z).
  { pose proof (Z.mul_nonneg_nonneg (a - b - 1) (Z.pos d * Z.pos d')
                  ltac:(lia) ltac:(lia)).
    unfold A, B. nia. }
  assert (HA : (A <= Z.pos d)%Z) by lia.
  assert (HB : (- Z.pos d' <= B)%Z) by lia.
  assert (HA' : (A * Z.pos d' <= Z.pos d * Z.pos d')%Z) by nia.
  assert (HB' : (- (Z.pos d * Z.pos d') <= B * Z.pos d)%Z) by nia.
  assert (EA : (A * Z.pos d' = Z.pos d * Z.pos d')%Z) by lia.
  assert (EB : (B * Z.pos d = - (Z.pos d * Z.pos d'))%Z) by lia.
  assert (A = Z.pos d) by nia.
  assert (B = - Z.pos d')%Z by nia.
  assert (Hab : a = (b + 1)%Z).
  { assert ((a - b - 1) * (Z.pos d * Z.pos d') <= 0)%Z by (unfold A, B in *; nia).
    nia. }
  destruct Hx as [Hx|[_ Hxe]]; [lia|].
  destruct Hy as [Hy|[_ Hye]]; [lia|].
  rewrite Hab, Z.even_add, Hye in Hxe. discriminate.
Qed.

Lemma nearest_even_mono (x y : Q) :
  x <= y -> (nearest_even x <= nearest_even y)%Z.
Proof.
  destruct x as [n d], y as [n' d']. intros Hxy.
  apply (nearest_even_order n n' _ _ d d').
  - exact Hxy.
  - apply nearest_even_Z.
  - apply nearest_even_Z.
Qed.

Lemma nearest_even_int (q : Q) (z : Z) :
  q == inject_Z z -> nearest_even q = z.
Proof.
  destruct q as [n d]. intros Hq.
  pose proof (nearest_even_Z n d) as Hs. cbv zeta in Hs.
  set (r := nearest_even (n # d)) in *.
  unfold Qeq, inject_Z in Hq. cbn [Qnum Qden] in Hq.
  assert (Hd : (2 * (r * Z.pos d - n) = 2 * (r - z) * Z.pos d)%Z) by lia.
  rewrite Hd in Hs.
  destruct (Z.eq_dec r z) as [|Hne]; [assumption|exfalso].
  assert (1 <= Z.abs (r - z))%Z by lia.
  assert (Z.pos d * 2 <= Z.abs (2 * (r - z) * Z.pos d))%Z.
  { rewrite !Z.abs_mul. change (Z.abs 2) with 2%Z.
    rewrite (Z.abs_eq (Z.pos d)) by lia. nia. }
  destruct Hs as [Hs|[Hs _]]; lia.
Qed.

(** ** Powers of two *)

Lemma two_pos (e : Z) : 0 < 2 ^ e.
Proof. apply Qpower_0_lt. reflexivity. Qed.

Lemma two_plus (a b : Z) : 2 ^ (a + b) == 2 ^ a * 2 ^ b.
Proof. apply Qpower_plus. discriminate. Qed.

Lemma two_minus (a b : Z) : 2 ^ (a - b) == 2 ^ a / 2 ^ b.
Proof. apply Qpower_minus. discriminate. Qed.

Lemma two_inject (n : Z) : (0 <= n)%Z -> inject_Z (2 ^ n) == 2 ^ n.
Proof. intros Hn. apply (Zpower_Qpower 2 n Hn). Qed.

Lemma two_le (a b : Z) : (a <= b)%Z -> 2 ^ a <= 2 ^ b.
Proof. intros Hab. apply Qpower_le_compat_l; [exact Hab | discriminate]. Qed.

Lemma two_lt_inv (a b : Z) : 2 ^ a < 2 ^ b -> (a < b)%Z.
Proof. intros H. apply (Qpower_lt_compat_l_inv 2 a b H). reflexivity. Qed.

Lemma two_cancel (a : Z) : 2 ^ a * 2 ^ (- a) == 1.
Proof. rewrite <- two_plus, Z.add_opp_diag_r. reflexivity. Qed.

(** ** The binary exponent *)

Lemma ilog2_spec (x : Q) :
  0 < x -> 2 ^ ilog2 x <= x /\ x < 2 ^ (ilog2 x + 1).
Proof.
  destruct x as [n d]. intros Hx. unfold ilog2. cbn [Qnum Qden].
  assert (Hn : (0 < n)%Z).
  { unfold Qlt in Hx. cbn in Hx. lia. }
  set (k := (Z.log2 (Z.pos d) + 1)%Z).
  set (t := (n * 2 ^ k / Z.pos d)%Z).
  set (l := Z.log2 t).
  assert (Hk0 : (0 <= Z.log2 (Z.pos d))%Z) by apply Z.log2_nonneg.
  assert (Hk : (Z.pos d < 2 ^ k)%Z).
  { unfold k. pose proof (Z.log2_spec (Z.pos d) ltac:(lia)) as [_ H].
    rewrite <- Z.add_1_r in H. exact H. }
  assert (Ht1 : (t * Z.pos d <= n * 2 ^ k)%Z).
  { unfold t. rewrite Z.mul_comm. apply Z.mul_div_le. lia. }
  assert (Ht2 : (n * 2 ^ k < (t + 1) * Z.pos d)%Z).
  { pose proof (Z.mul_succ_div_gt (n * 2 ^ k) (Z.pos d) ltac:(lia)) as H.
    fold t in H. lia. }
  assert (Ht : (1 <= t)%Z).
  { assert (Z.pos d < (t + 1) * Z.pos d)%Z by nia. nia. }
  assert (Hl0 : (0 <= l)%Z) by apply Z.log2_nonneg.
  pose proof (Z.log2_spec t ltac:(lia)) as [Hl1 Hl2]. fold l in Hl1, Hl2.
  rewrite <- Z.add_1_r in Hl2.
  assert (Hpk : (0 < 2 ^ k)%Z) by lia.
  split.
  - rewrite two_minus, <- (two_inject l), <- (two_inject k) by lia.
    apply Qle_shift_div_r.
    + rewrite <- (Zlt_Qlt 0). exact Hpk.
    + unfold Qle, Qmult, inject_Z. cbn [Qnum Qden]. nia.
  - replace (l - k + 1)%Z with (l + 1 - k)%Z by lia.
    rewrite two_minus, <- (two_inject (l + 1)), <- (two_inject k) by lia.
    apply Qlt_shift_div_l.
    + rewrite <- (Zlt_Qlt 0). exact Hpk.
    + unfold Qlt, Qmult, inject_Z. cbn [Qnum Qden]. nia.
Qed.

Lemma ilog2_le (x y : Q) : 0 < x -> x <= y -> (ilog2 x <= ilog2 y)%Z.
Proof.
  intros Hx Hxy.
  assert (Hy : 0 < y) by (eapply Qlt_le_trans; eauto).
  destruct (ilog2_spec x Hx) as [Hx1 _].
  destruct (ilog2_spec y Hy) as [_ Hy2].
  assert (2 ^ ilog2 x < 2 ^ (ilog2 y + 1)).
  { eapply Qle_lt_trans; [exact Hx1|].
    eapply Qle_lt_trans; [exact Hxy | exact Hy2]. }
  apply two_lt_inv in H. lia.
Qed.

(** ** Rounding to 53 bits *)

Lemma round53_zero (x : Q) : x == 0 -> round53 x = 0.
Proof.
  intros Hx. unfold round53.
  apply Qeq_bool_iff in Hx. rewrite Hx. reflexivity.
Qed.

(** The significand and the exponent of the rounded value. *)
Lemma round53_pos (x : Q) :
  0 < x ->
  let e := (ilog2 x - 52)%Z in
  let m := nearest_even (x * 2 ^ (- e)) in
  round53 x == inject_Z m * 2 ^ e /\ (2 ^ 52 <= m <= 2 ^ 53)%Z.
Proof.
  intros Hx e m.
  destruct (ilog2_spec x Hx) as [Hl1 Hl2].
  split.
  - unfold round53.
    destruct (Qeq_bool x 0) eqn:Hz.
    { apply Qeq_bool_iff in Hz. rewrite Hz in Hx. discriminate. }
    assert (Habs : Qabs x = x).
    { destruct x as [[|p|p] d]; try reflexivity; discriminate. }
    rewrite Habs. cbv zeta. fold e. fold m. apply Qred_correct.
  - assert (Hs1 : inject_Z (2 ^ 52) <= x * 2 ^ (- e)).
    { rewrite two_inject by lia.
      replace 52%Z with (ilog2 x + - e)%Z at 1 by (unfold e; lia).
      rewrite two_plus.
      apply Qmult_le_compat_r; [exact Hl1|].
      apply Qlt_le_weak, two_pos. }
    assert (Hs2 : x * 2 ^ (- e) <= inject_Z (2 ^ 53)).
    { rewrite two_inject by lia.
      replace 53%Z with (ilog2 x + 1 + - e)%Z at 1 by (unfold e; lia).
      rewrite two_plus.
      apply Qmult_le_compat_r; [apply Qlt_le_weak; exact Hl2|].
      apply Qlt_le_weak, two_pos. }
    apply nearest_even_mono in Hs1, Hs2.
    rewrite (nearest_even_int (inject_Z (2 ^ 52)) (2 ^ 52)) in Hs1
      by reflexivity.
    rewrite (nearest_even_int (inject_Z (2 ^ 53)) (2 ^ 53)) in Hs2
      by reflexivity.
    fold m in Hs1, Hs2. split; assumption.
Qed.

Lemma round53_nonneg (x : Q) : 0 <= x -> 0 <= round53 x.
Proof.
  intros Hx. destruct (Qeq_dec x 0) as [Hz|Hnz].
  - rewrite (round53_zero x Hz). apply Qle_refl.
  - assert (Hpos : 0 < x).
    { apply Qle_lteq in Hx as [H|H]; [exact H|]. symmetry in H. contradiction. }
    destruct (round53_pos x Hpos) as [-> [Hm _]].
    apply Qmult_le_0_compat.
    + rewrite <- (Zle_Qle 0). lia.
    + apply Qlt_le_weak, two_pos.
Qed.

Lemma round53_positive (x : Q) : 0 < x -> 0 < round53 x.
Proof.
  intros Hpos. destruct (round53_pos x Hpos) as [-> [Hm _]].
  apply Qmult_lt_0_compat.
  - rewrite <- (Zlt_Qlt 0). lia.
  - apply two_pos.
Qed.

Lemma round53_mono (x y : Q) : 0 <= x -> x <= y -> round53 x <= round53 y.
Proof.
  intros Hx Hxy.
  assert (Hy : 0 <= y) by (eapply Qle_trans; eauto).
  destruct (Qeq_dec x 0) as [Hz|Hnz].
  { rewrite (round53_zero x Hz). apply round53_nonneg. exact Hy. }
  assert (Hpx : 0 < x).
  { apply Qle_lteq in Hx as [H|H]; [exact H|]. symmetry in H. contradiction. }
  assert (Hpy : 0 < y) by (eapply Qlt_le_trans; eauto).
  destruct (round53_pos x Hpx) as [-> [Hmx1 Hmx2]].
  destruct (round53_pos y Hpy) as [-> [Hmy1 Hmy2]].
  pose proof (ilog2_le x y Hpx Hxy) as Hl.
  destruct (Z.eq_dec (ilog2 x) (ilog2 y)) as [Heq|Hne].
  - rewrite Heq.
    apply Qmult_le_compat_r; [|apply Qlt_le_weak, two_pos].
    rewrite <- Zle_Qle. apply nearest_even_mono.
    apply Qmult_le_compat_r; [exact Hxy | apply Qlt_le_weak, two_pos].
  - apply Qle_trans with (inject_Z (2 ^ 53) * 2 ^ (ilog2 x - 52)).
    { apply Qmult_le_compat_r; [|apply Qlt_le_weak, two_pos].
      rewrite <- Zle_Qle. exact Hmx2. }
    apply Qle_trans with (inject_Z (2 ^ 52) * 2 ^ (ilog2 y - 52)).
    + change (2 ^ 53)%Z with (2 ^ 52 * 2 ^ 1)%Z.
      rewrite inject_Z_mult, <- Qmult_assoc.
      apply Qmult_le_l; [reflexivity|].
      rewrite (two_inject 1) by lia. rewrite <- two_plus.
      apply two_le. lia.
    + apply Qmult_le_compat_r; [|apply Qlt_le_weak, two_pos].
      rewrite <- Zle_Qle. exact Hmy1.
Qed.

Lemma round53_exact (m k : Z) :
  (0 <= m < 2 ^ 53)%Z ->
  round53 (inject_Z m * 2 ^ k) == inject_Z m * 2 ^ k.
Proof.
  intros [Hm0 Hm]. destruct (Z.eq_dec m 0%Z) as [->|Hnz].
  { rewrite round53_zero; [|apply Qmult_0_l]. rewrite Qmult_0_l. reflexivity. }
  set (x := inject_Z m * 2 ^ k).
  assert (Hpx : 0 < x).
  { apply Qmult_lt_0_compat; [|apply two_pos].
    rewrite <- (Zlt_Qlt 0). lia. }
  destruct (round53_pos x Hpx) as [-> _].
  destruct (ilog2_spec x Hpx) as [Hl1 _].
  assert (Hl : (ilog2 x < 53 + k)%Z).
  { apply two_lt_inv. eapply Qle_lt_trans; [exact Hl1|].
    unfold x. rewrite two_plus, <- (two_inject 53) by lia.
    apply Qmult_lt_compat_r; [apply two_pos|].
    rewrite <- Zlt_Qlt. exact Hm. }
  set (e := (ilog2 x - 52)%Z).
  assert (He : (0 <= k - e)%Z) by (unfold e; lia).
  assert (Hs : x * 2 ^ (- e) == inject_Z (m * 2 ^ (k - e))).
  { unfold x. rewrite inject_Z_mult, two_inject by exact He.
    rewrite <- Qmult_assoc, <- two_plus.
    replace (k + - e)%Z with (k - e)%Z by lia. reflexivity. }
  rewrite (nearest_even_int _ _ Hs).
  rewrite inject_Z_mult, two_inject by exact He.
  rewrite <- Qmult_assoc, <- two_plus.
  replace (k - e + e)%Z with k by lia. reflexivity.
Qed.

Local Close Scope Q_scope.
(** ** Floats: the rounding of the code is faithful *)

Local Open Scope Q_scope.

Lemma ilog2_proper (x y : Q) : 0 < x -> x == y -> ilog2 x = ilog2 y.
Proof.
  intros Hx Hxy.
  assert (Hy : 0 < y) by (rewrite <- Hxy; exact Hx).
  apply Z.le_antisymm; apply ilog2_le; try assumption;
    rewrite Hxy; apply Qle_refl.
Qed.

Lemma nearest_even_proper (x y : Q) :
  x == y -> nearest_even x = nearest_even y.
Proof.
  intros Hxy. apply Z.le_antisymm; apply nearest_even_mono;
    rewrite Hxy; apply Qle_refl.
Qed.

Lemma Qabs_positive (x : Q) : ~ x == 0 -> 0 < Qabs x.
Proof.
  intros Hx. destruct (Qle_lteq 0 (Qabs x)) as [H _].
  destruct (H (Qabs_nonneg x)) as [Hlt|Heq]; [exact Hlt|].
  exfalso. apply Hx. symmetry in Heq.
  destruct x as [[|p|p] d]; try discriminate. reflexivity.
Qed.

Lemma round53_proper (x y : Q) : x == y -> round53 x == round53 y.
Proof.
  intros Hxy. unfold round53.
  destruct (Qeq_bool x 0) eqn:Hx.
  - apply Qeq_bool_iff in Hx.
    assert (Hy : Qeq_bool y 0 = true)
      by (apply Qeq_bool_iff; rewrite <- Hxy; exact Hx).
    rewrite Hy. reflexivity.
  - assert (Hnx : ~ x == 0).
    { intros Hz. apply Qeq_bool_iff in Hz. congruence. }
    assert (Hy : Qeq_bool y 0 = false).
    { destruct (Qeq_bool y 0) eqn:E; [|reflexivity].
      apply Qeq_bool_iff in E. exfalso. apply Hnx.
      rewrite Hxy. exact E. }
    rewrite Hy. cbv zeta. rewrite !Qred_correct.
    rewrite (ilog2_proper (Qabs x) (Qabs y));
      [|apply Qabs_positive; exact Hnx|rewrite Hxy; reflexivity].
    rewrite (nearest_even_proper (x * 2 ^ (- (ilog2 (Qabs y) - 52)))
               (y * 2 ^ (- (ilog2 (Qabs y) - 52))));
      [reflexivity|].
    rewrite Hxy. reflexivity.
Qed.

Lemma binary64_faithful : Faithful binary64.
Proof.
  split; cbn [fl binary64].
  - apply round53_proper.
  - apply round53_mono.
  - apply round53_exact.
  - apply round53_positive.
Qed.

Lemma exact_faithful : Faithful exact.
Proof.
  split; cbn [fl exact]; intros; try assumption. reflexivity.
Qed.

(** What follows for any faithful rounding. *)
Section FaithfulRounding.
Context `{R : Rounding} {F : Faithful R}.

Lemma fl_int (n : Z) : (0 <= n < 2 ^ 53)%Z -> fl (inject_Z n) == inject_Z n.
Proof.
  intros Hn.
  rewrite (fl_proper (inject_Z n) (inject_Z n * 2 ^ 0))
    by (cbn; rewrite Qmult_1_r; reflexivity).
  rewrite (fl_exact n 0 Hn). cbn. apply Qmult_1_r.
Qed.

Lemma fl_zero : fl 0 == 0.
Proof. apply (fl_int 0). lia. Qed.

Lemma fl_nonneg (x : Q) : 0 <= x -> 0 <= fl x.
Proof.
  intros Hx. rewrite <- fl_zero. apply fl_mono; [apply Qle_refl | exact Hx].
Qed.

Lemma fl_int_le (n : Z) (x : Q) :
  (0 <= n < 2 ^ 53)%Z -> inject_Z n <= x -> inject_Z n <= fl x.
Proof.
  intros Hn Hx. rewrite <- (fl_int n Hn).
  apply fl_mono; [|exact Hx]. rewrite <- (Zle_Qle 0). lia.
Qed.

Lemma float_of_int_exact (n : Z) :
  (0 <= n < 2 ^ 53)%Z -> float_of_int n == inject_Z n.
Proof. apply fl_int. Qed.

Lemma float_of_int_nonneg (n : Z) : (0 <= n)%Z -> 0 <= float_of_int n.
Proof.
  intros Hn. apply fl_nonneg. rewrite <- (Zle_Qle 0). exact Hn.
Qed.

Lemma float_of_int_mono (a b : Z) :
  (0 <= a <= b)%Z -> float_of_int a <= float_of_int b.
Proof.
  intros [Ha Hab]. apply fl_mono.
  - rewrite <- (Zle_Qle 0). exact Ha.
  - rewrite <- Zle_Qle. exact Hab.
Qed.

End FaithfulRounding.

Lemma py_int_proper (x y : Q) : x == y -> py_int x = py_int y.
Proof.
  destruct x as [a b], y as [c d]. unfold Qeq, py_int. cbn [Qnum Qden].
  intros Heq.
  rewrite <- (Z.quot_mul_cancel_r a (Z.pos b) (Z.pos d)) by lia.
  rewrite <- (Z.quot_mul_cancel_r c (Z.pos d) (Z.pos b)) by lia.
  rewrite Heq. f_equal. lia.
Qed.

Lemma py_int_inject (z : Z) : py_int (inject_Z z) = z.
Proof. unfold py_int, inject_Z. cbn [Qnum Qden]. apply Z.quot_1_r. Qed.

Lemma py_int_of_int (x : Q) (z : Z) : x == inject_Z z -> py_int x = z.
Proof.
  intros Hx. rewrite (py_int_proper _ _ Hx). apply py_int_inject.
Qed.

Lemma py_int_ge (x : Q) (z : Z) :
  (0 <= z)%Z -> inject_Z z <= x -> (z <= py_int x)%Z.
Proof.
  intros Hz Hx. rewrite <- (py_int_inject z).
  apply py_int_mono; [|exact Hx]. rewrite <- (Zle_Qle 0). exact Hz.
Qed.

Local Close Scope Q_scope.

(** ** The relative error of a faithful rounding *)

Local Open Scope Q_scope.

Section RoundingError.
Context `{R : Rounding} {F : Faithful R}.

Lemma fl_exact_le (m k : Z) :
  (0 <= m <= 2 ^ 53)%Z -> fl (inject_Z m * 2 ^ k) == inject_Z m * 2 ^ k.
Proof.
  intros Hm. destruct (Z.eq_dec m (2 ^ 53)%Z) as [->|Hne].
  - assert (Heq : inject_Z (2 ^ 53) * 2 ^ k == inject_Z 1 * 2 ^ (53 + k)).
    { rewrite two_plus, two_inject by lia.
      change (inject_Z 1) with 1. ring. }
    rewrite (fl_proper _ _ Heq). rewrite Heq. apply fl_exact. lia.
  - apply fl_exact. lia.
Qed.

(** A positive number lies between two neighbours of 53 bits, a
    [2 ^ (-52)]th of it apart at most, and so does what it rounds to. *)
Lemma fl_error_pos (x : Q) :
  0 < x -> x - x * 2 ^ (-52) <= fl x /\ fl x <= x + x * 2 ^ (-52).
Proof.
  intros Hx. destruct (ilog2_spec x Hx) as [Hl1 Hl2].
  set (l := ilog2 x) in *. set (e := (l - 52)%Z).
  set (y := x * 2 ^ (- e)). set (f := Qfloor y).
  pose proof (two_pos e) as HE. pose proof (two_pos (- e)) as HE'.
  pose proof (two_cancel e) as Hcancel.
  assert (Hxy : x == y * 2 ^ e).
  { unfold y. rewrite <- Qmult_assoc, (Qmult_comm (2 ^ (- e))), Hcancel.
    ring. }
  assert (HL : 2 ^ e == 2 ^ l * 2 ^ (-52)).
  { unfold e. rewrite <- two_plus. reflexivity. }
  assert (Hy1 : inject_Z (2 ^ 52) <= y).
  { rewrite two_inject by lia. unfold y.
    assert (H52 : 2 ^ 52 == 2 ^ l * 2 ^ (- e)).
    { rewrite <- two_plus. unfold e.
      replace (l + - (l - 52))%Z with 52%Z by lia. reflexivity. }
    rewrite H52. apply Qmult_le_compat_r; [exact Hl1|].
    apply Qlt_le_weak, HE'. }
  assert (Hy2 : y < inject_Z (2 ^ 53)).
  { rewrite two_inject by lia. unfold y.
    assert (H53 : 2 ^ 53 == 2 ^ (l + 1) * 2 ^ (- e)).
    { rewrite <- two_plus. unfold e.
      replace (l + 1 + - (l - 52))%Z with 53%Z by lia. reflexivity. }
    rewrite H53. apply Qmult_lt_compat_r; [exact HE' | exact Hl2]. }
  pose proof (Qfloor_le y) as Hf1. pose proof (Qlt_floor y) as Hf2.
  fold f in Hf1, Hf2.
  assert (Hfl : (2 ^ 52 <= f)%Z).
  { unfold f. rewrite <- (Qfloor_Z (2 ^ 52)).
    apply Qfloor_resp_le. exact Hy1. }
  assert (Hfu : (f < 2 ^ 53)%Z).
  { rewrite Zlt_Qlt. eapply Qle_lt_trans; [exact Hf1 | exact Hy2]. }
  assert (Hsucc : inject_Z (f + 1) == inject_Z f + 1).
  { rewrite inject_Z_plus. reflexivity. }
  assert (Hf0 : 0 <= inject_Z f).
  { rewrite <- (Zle_Qle 0). lia. }
  assert (Hlow : inject_Z f * 2 ^ e <= x).
  { rewrite Hxy. apply Qmult_le_compat_r; [exact Hf1|].
    apply Qlt_le_weak, HE. }
  assert (Hup : x <= inject_Z (f + 1) * 2 ^ e).
  { rewrite Hxy. apply Qmult_le_compat_r; [|apply Qlt_le_weak, HE].
    apply Qlt_le_weak. exact Hf2. }
  assert (Hgap : 2 ^ e <= x * 2 ^ (-52)).
  { rewrite HL. apply Qmult_le_compat_r; [exact Hl1|].
    apply Qlt_le_weak, two_pos. }
  split.
  - apply Qle_trans with (inject_Z f * 2 ^ e).
    + assert (Hstep : x - 2 ^ e <= inject_Z f * 2 ^ e).
      { apply Qle_trans with (inject_Z (f + 1) * 2 ^ e - 2 ^ e).
        - apply Qplus_le_l. exact Hup.
        - rewrite Hsucc. ring_simplify. apply Qle_refl. }
      eapply Qle_trans; [|exact Hstep].
      apply Qplus_le_r. apply Qopp_le_compat. exact Hgap.
    + rewrite <- (fl_exact f e) by lia.
      apply fl_mono; [|exact Hlow].
      apply Qmult_le_0_compat; [exact Hf0 | apply Qlt_le_weak, HE].
  - apply Qle_trans with (inject_Z (f + 1) * 2 ^ e).
    + rewrite <- (fl_exact_le (f + 1) e) by lia.
      apply fl_mono; [apply Qlt_le_weak, Hx | exact Hup].
    + assert (Hstep : inject_Z (f + 1) * 2 ^ e <= x + 2 ^ e).
      { rewrite Hsucc.
        apply Qle_trans with (inject_Z f * 2 ^ e + 2 ^ e).
        - ring_simplify. apply Qle_refl.
        - apply Qplus_le_l. exact Hlow. }
      eapply Qle_trans; [exact Hstep|].
      apply Qplus_le_r. exact Hgap.
Qed.

Lemma fl_error (x : Q) :
  0 <= x -> x - x * 2 ^ (-52) <= fl x /\ fl x <= x + x * 2 ^ (-52).
Proof.
  intros Hx. destruct (Qlt_le_dec 0 x) as [Hpos|Hle].
  - apply fl_error_pos. exact Hpos.
  - assert (Hz : x == 0) by (apply Qle_antisym; assumption).
    rewrite (fl_proper _ _ Hz), fl_zero, Hz. split; discriminate.
Qed.

End RoundingError.

Local Close Scope Q_scope.
(** ** utils.py: add_watermark *)

Section Watermark.
Context `{R : Rounding} {F : Faithful R}.

Lemma default_wm_rel_size_exact : (default_wm_rel_size == 1 # 16)%Q.
Proof.
  unfold default_wm_rel_size, int_div.
  rewrite (fl_proper _ (inject_Z 1 * 2 ^ (-4))%Q) by reflexivity.
  rewrite (fl_exact 1 (-4)) by lia. reflexivity.
Qed.

(** [int(max(H, W) * wm_rel_size)] for the default size. *)
Lemma wmsize_default (m : Z) :
  0 <= m < 2 ^ 53 ->
  py_int (f_mul (float_of_int m) default_wm_rel_size) = m / 16.
Proof.
  intros Hm. unfold f_mul.
  assert (Hprod : (fl (float_of_int m * default_wm_rel_size)
                   == inject_Z m * 2 ^ (-4))%Q).
  { rewrite <- (fl_exact m (-4) Hm). apply fl_proper.
    rewrite (float_of_int_exact m Hm), default_wm_rel_size_exact.
    reflexivity. }
  rewrite (py_int_proper _ (m # 16)).
  - apply py_int_nonneg. lia.
  - rewrite Hprod. change (2 ^ (-4))%Q with (1 # 16)%Q.
    unfold Qeq, Qmult, inject_Z. cbn [Qnum Qden]. lia.
Qed.

Lemma aspect_positive (w_0 h_0 : Z) :
  0 < w_0 -> 0 < h_0 -> (0 < int_div h_0 w_0)%Q.
Proof.
  intros Hw Hh. unfold int_div. apply fl_positive.
  apply Qlt_shift_div_l.
  - rewrite <- (Zlt_Qlt 0). exact Hw.
  - rewrite Qmult_0_l. rewrite <- (Zlt_Qlt 0). exact Hh.
Qed.

(** The side that does not get [wmsize] is at least as long. *)
Lemma tall_side (aspect : Q) (wmsize : Z) :
  0 <= wmsize < 2 ^ 53 -> (1 < aspect)%Q ->
  wmsize <= py_int (f_mul aspect (float_of_int wmsize)).
Proof.
  intros Hs Ha. apply py_int_ge; [lia|]. unfold f_mul.
  apply fl_int_le; [exact Hs|].
  rewrite (float_of_int_exact wmsize Hs).
  rewrite <- (Qmult_1_l (inject_Z wmsize)) at 1.
  apply Qmult_le_compat_r; [apply Qlt_le_weak; exact Ha|].
  rewrite <- (Zle_Qle 0). lia.
Qed.

Lemma wide_side (aspect : Q) (wmsize : Z) :
  0 <= wmsize < 2 ^ 53 -> (0 < aspect)%Q -> (aspect <= 1)%Q ->
  wmsize <= py_int (f_div (float_of_int wmsize) aspect).
Proof.
  intros Hs Hpos Ha. apply py_int_ge; [lia|]. unfold f_div.
  apply fl_int_le; [exact Hs|].
  rewrite (float_of_int_exact wmsize Hs).
  apply Qle_shift_div_l; [exact Hpos|].
  rewrite <- (Qmult_1_r (inject_Z wmsize)) at 2.
  rewrite !(Qmult_comm (inject_Z wmsize)).
  apply Qmult_le_compat_r; [exact Ha|].
  rewrite <- (Zle_Qle 0). lia.
Qed.

Lemma fromarray_bands (H W bands : Z) (arr : tensor Z) :
  2 <= bands <= 4 ->
  exists md, fromarray H W bands arr = inr (MkImage (W, H) md (FromArray arr)).
Proof.
  intros Hb. unfold fromarray.
  repeat (destruct (decide _); [eexists; reflexivity|]). lia.
Qed.

(** C3 (amended): with the default relative size 1/16 and margin 5, the
    watermark is scaled so that its SMALLER side is [max(H, W) // 16]
    pixels: a watermark whose aspect ratio [h_0 / w_0] (a float) exceeds
    1 gets this width, any other this height; the other side is the
    integer part of the float product, or quotient, with the aspect ratio
    (64 and 128 for a 200 x 100 logo when [max(H, W) = 1024]).  It is
    pasted at [(W - w - 5, H - h - 5)] for the scaled width [w] and height
    [h].  The image has 2, 3 or 4 bands and sides below [2 ^ 53]. *)
Theorem add_watermark_scales_smaller_side
    (disk : gmap string file) (image : tensor Z) (watermark_path : string)
    (H W bands w_0 h_0 : Z) (md : pil_mode) (px : pil_pixels) :
  disk !! watermark_path = Some (Picture (MkImage (w_0, h_0) md px)) ->
  shape image = [H; W; bands] -> 2 <= bands <= 4 ->
  0 < w_0 -> 0 < h_0 -> 16 <= Z.max H W < 2 ^ 53 ->
  let wmsize := Z.max H W / 16 in
  let aspect := int_div h_0 w_0 in
  exists out w h,
    add_watermark disk image watermark_path default_wm_rel_size
      default_boundary = inr out
    /\ pasted_size out = Some (w, h)
    /\ Z.min w h = wmsize
    /\ ((1 < aspect)%Q ->
        w = wmsize /\ h = py_int (f_mul aspect (float_of_int wmsize)))
    /\ ((aspect <= 1)%Q ->
        h = wmsize /\ w = py_int (f_div (float_of_int wmsize) aspect))
    /\ pasted_box out = Some (W - w - 5, H - h - 5).
Proof.
  intros Hdisk Hshape Hbands Hw Hh Hbig wmsize aspect.
  assert (Hs : 1 <= wmsize < 2 ^ 53).
  { unfold wmsize. split.
    - apply Z.div_le_lower_bound; lia.
    - apply Z.div_lt_upper_bound; lia. }
  destruct (fromarray_bands H W bands image Hbands) as [md' Hfrom].
  pose proof (aspect_positive w_0 h_0 Hw Hh) as Hpos. fold aspect in Hpos.
  unfold add_watermark, Image_open. rewrite Hdisk, Hshape.
  rewrite wmsize_default by lia. fold wmsize.
  unfold scale_watermark. cbn [size].
  rewrite decide_False by lia. fold aspect.
  destruct (Qlt_bool 1 aspect) eqn:Htall.
  - apply Qlt_bool_iff in Htall.
    pose proof (tall_side aspect wmsize ltac:(lia) Htall) as Hside.
    unfold resize. cbn [fst snd].
    rewrite decide_True by lia. cbn [size]. rewrite Hfrom.
    eexists _, wmsize, _. split; [reflexivity|].
    split; [reflexivity|].
    split; [lia|]. split; [intros _; split; reflexivity|].
    split; [|reflexivity].
    intros Hle. exfalso. exact (Qlt_not_le _ _ Htall Hle).
  - assert (Hle : (aspect <= 1)%Q).
    { apply Qnot_lt_le. intros Hlt. apply Qlt_bool_iff in Hlt. congruence. }
    assert (Hnz : Qeq_bool aspect 0 = false).
    { destruct (Qeq_bool aspect 0) eqn:E; [|reflexivity].
      apply Qeq_bool_iff in E. rewrite E in Hpos. discriminate. }
    rewrite Hnz.
    pose proof (wide_side aspect wmsize ltac:(lia) Hpos Hle) as Hside.
    unfold resize. cbn [fst snd].
    rewrite decide_True by lia. cbn [size]. rewrite Hfrom.
    eexists _, _, wmsize. split; [reflexivity|].
    split; [reflexivity|].
    split; [lia|]. split; [|split; [intros _; split; reflexivity|reflexivity]].
    intros Hlt. exfalso. exact (Qlt_not_le _ _ Hlt Hle).
Qed.

End Watermark.

(** The theorem in binary64, at a 93 x 64 logo on a 1024 x 1024 image:
    the height is 64, and the width the integer part of [64 / (64 / 93)],
    a float just below 93. *)
Lemma add_watermark_scales_smaller_side_witness :
  exists out,
    add_watermark (R:=binary64) odd_watermark_disk square_canvas "logo.png"
      (default_wm_rel_size (R:=binary64)) default_boundary = inr out
    /\ pasted_size out = Some (92, 64)
    /\ pasted_box out = Some (927, 955).
Proof.
  destruct (add_watermark_scales_smaller_side (R:=binary64)
              (F:=binary64_faithful) odd_watermark_disk square_canvas
              "logo.png" 1024 1024 3 93 64 RGBA (FromFile "logo.png"))
    as (out & w & h & Hrun & Hsize & _ & _ & Hwide & Hbox).
  - reflexivity.
  - reflexivity.
  - lia.
  - lia.
  - lia.
  - vm_compute. split; [discriminate | reflexivity].
  - destruct Hwide as [-> ->]; [vm_compute; discriminate|].
    exists out. split; [exact Hrun|]. split; [exact Hsize | exact Hbox].
Defined.

(** C3 as stated fails: on a 1024 x 1024 image the 200 x 100 logo is
    scaled to 128 x 64, whose larger side is 128 and not 64. *)
Lemma add_watermark_larger_side_counterexample :
  exists out,
    add_watermark (R:=binary64) wide_watermark_disk square_canvas "logo.png"
      (default_wm_rel_size (R:=binary64)) default_boundary = inr out
    /\ pasted_size out = Some (128, 64)
    /\ Z.max 128 64 <> py_int (int_div (R:=binary64) (Z.max 1024 1024) 16).
Proof.
  eexists. split; [vm_compute; reflexivity|].
  split; [reflexivity|]. vm_compute. discriminate.
Qed.

(** ** utils.py: prepare_video *)

Lemma valid_index_bound (len idx : Z) :
  0 <= idx -> valid_index len idx = true <-> idx < len.
Proof.
  intros H0. unfold valid_index.
  destruct (Z.ltb_spec idx 0); [lia|].
  rewrite andb_true_iff, Z.leb_le, Z.ltb_lt. tauto.
Qed.

(** What a successful call of [prepare_video] went through. *)
Lemma prepare_video_inr `{R : Rounding} {Dev Dt : Type}
    (videos : gmap string video_reader) (video_path : string)
    (resolution : Z) (device : Dev) (dtype : Dt) (normalize : bool)
    (start_t end_t : Q) (output_fps : Z) (v : video) (fps : Z) :
  prepare_video videos video_path resolution device dtype normalize start_t
    end_t output_fps = inr (v, fps) ->
  exists vr,
    videos !! video_path = Some vr
    /\ ~ (vr_avg_fps vr == 0)%Q
    /\ let stop := resolve_end_t (vr_len vr) (vr_avg_fps vr) end_t in
       let k := f_div (float_of_int resolution)
                  (float_of_int (Z.max (vr_height vr) (vr_width vr))) in
       (0 <= start_t)%Q /\ (start_t < stop)%Q
       /\ fps = resolve_output_fps (vr_avg_fps vr) output_fps /\ 0 < fps
       /\ Z.max (vr_height vr) (vr_width vr) <> 0
       /\ frames_of v
          = py_int <$> linspace (py_int (f_mul start_t (vr_avg_fps vr)))
                         (py_int (f_mul stop (vr_avg_fps vr)))
                         (py_int (f_mul (f_sub stop start_t)
                                    (float_of_int fps)))
       /\ forallb (valid_index (vr_len vr)) (frames_of v) = true
       /\ height_of v
          = np_round (f_div (f_mul (float_of_int (vr_height vr)) k) 64) * 64
       /\ width_of v
          = np_round (f_div (f_mul (float_of_int (vr_width vr)) k) 64) * 64
       /\ 1 <= height_of v /\ 1 <= width_of v.
Proof.
  unfold prepare_video. intros Hrun.
  destruct (videos !! video_path) as [vr|]; [|discriminate].
  exists vr. split; [reflexivity|].
  destruct (Qeq_bool (vr_avg_fps vr) 0) eqn:Hz; [discriminate|].
  split.
  { intros Heq. apply Qeq_bool_iff in Heq. congruence. }
  destruct (Qle_bool 0 start_t && Qlt_bool start_t _) eqn:Ht;
    simpl in Hrun; [|discriminate].
  destruct (bool_decide (resolve_output_fps (vr_avg_fps vr) output_fps > 0))
    eqn:Hf; simpl in Hrun; [|discriminate].
  destruct (forallb _ _) eqn:Hvalid; simpl in Hrun; [|discriminate].
  destruct (decide (Z.max (vr_height vr) (vr_width vr) = 0)) as [|Hmax];
    [discriminate|].
  destruct (decide (1 <= _ /\ 1 <= _)) as [[Hh Hw]|]; [|discriminate].
  injection Hrun as <- <-.
  apply andb_true_iff in Ht as [Ht1 Ht2].
  apply Qle_bool_iff in Ht1. apply Qlt_bool_iff in Ht2.
  apply bool_decide_eq_true in Hf.
  cbv zeta. cbn [frames_of height_of width_of].
  repeat split; try assumption; try reflexivity; lia.
Qed.

Section VideoSampling.
Context `{R : Rounding} {F : Faithful R}.

Local Abbreviation entry s e n i :=
  (f_add (f_mul (float_of_int i)
            (f_div (f_sub (float_of_int e) (float_of_int s))
               (float_of_int n)))
     (float_of_int s)).

Lemma lookup_linspace (s e n : Z) (i : nat) (idx : Z) :
  (py_int <$> linspace s e n) !! i = Some idx ->
  Z.of_nat i < n /\ idx = py_int (entry s e n (Z.of_nat i)).
Proof.
  intros Hi. unfold linspace in Hi. rewrite !list_lookup_fmap in Hi.
  destruct (seqZ 0 n !! i) as [k|] eqn:Hk; [|discriminate].
  apply lookup_seqZ in Hk as [-> Hlt]. simpl in Hi.
  injection Hi as <-. rewrite Z.add_0_l. split; [lia | reflexivity].
Qed.

Lemma length_linspace (s e n : Z) :
  0 <= n -> Z.of_nat (length (py_int <$> linspace s e n)) = n.
Proof.
  intros Hn. unfold linspace. rewrite !length_fmap, length_seqZ. lia.
Qed.

Lemma step_nonneg (s e n : Z) :
  0 <= s <= e -> 0 < n ->
  (0 <= f_div (f_sub (float_of_int e) (float_of_int s)) (float_of_int n))%Q.
Proof.
  intros Hse Hn. unfold f_div, f_sub. apply fl_nonneg.
  assert (Hfn : (0 < float_of_int n)%Q).
  { apply fl_positive. rewrite <- (Zlt_Qlt 0). exact Hn. }
  apply Qle_shift_div_l; [exact Hfn|]. rewrite Qmult_0_l.
  apply fl_nonneg. pose proof (float_of_int_mono s e Hse). lra.
Qed.

Lemma offset_nonneg (s e n i : Z) :
  0 <= s <= e -> 0 < n -> 0 <= i ->
  (0 <= f_mul (float_of_int i)
          (f_div (f_sub (float_of_int e) (float_of_int s))
             (float_of_int n)))%Q.
Proof.
  intros Hse Hn Hi. unfold f_mul. apply fl_nonneg.
  apply Qmult_le_0_compat;
    [apply float_of_int_nonneg; exact Hi | apply step_nonneg; assumption].
Qed.

(** No sampled index lies before the first frame of the range. *)
Lemma entry_ge (s e n i : Z) :
  0 <= s <= e -> s < 2 ^ 53 -> 0 < n -> 0 <= i ->
  s <= py_int (entry s e n i).
Proof.
  intros Hse Hs Hn Hi. apply py_int_ge; [lia|].
  unfold f_add. apply fl_int_le; [lia|].
  pose proof (offset_nonneg s e n i Hse Hn Hi) as Hoff.
  pose proof (float_of_int_exact s ltac:(lia)) as Hfs.
  set (off := f_mul _ _) in *. rewrite Hfs. lra.
Qed.

(** The sampled indices follow the order of their positions. *)
Lemma entry_mono (s e n i j : Z) :
  0 <= s <= e -> 0 < n -> 0 <= i <= j ->
  py_int (entry s e n i) <= py_int (entry s e n j).
Proof.
  intros Hse Hn Hij.
  pose proof (offset_nonneg s e n i Hse Hn ltac:(lia)) as Hoff.
  pose proof (float_of_int_nonneg s ltac:(lia)) as Hs.
  pose proof (step_nonneg s e n Hse Hn) as Hstep.
  apply py_int_mono.
  - unfold f_add. apply fl_nonneg. lra.
  - unfold f_add. apply fl_mono; [lra|].
    apply Qplus_le_l. unfold f_mul. apply fl_mono.
    + apply Qmult_le_0_compat; [|exact Hstep].
      apply float_of_int_nonneg. lia.
    + apply Qmult_le_compat_r; [|exact Hstep].
      apply float_of_int_mono. exact Hij.
Qed.

(** None lies past its last frame, for at most [2 ^ 52] samples. *)
Lemma entry_le (s e n i : Z) :
  0 <= s <= e -> e < 2 ^ 53 -> 0 < n <= 2 ^ 52 -> 0 <= i < n ->
  py_int (entry s e n i) <= e.
Proof.
  intros Hse He Hn Hi.
  pose proof (float_of_int_exact s ltac:(lia)) as Hfs.
  pose proof (float_of_int_exact e ltac:(lia)) as Hfe.
  pose proof (float_of_int_exact n ltac:(lia)) as Hfn.
  pose proof (float_of_int_exact i ltac:(lia)) as Hfi.
  assert (HD : (f_sub (float_of_int e) (float_of_int s)
                == inject_Z (e - s))%Q).
  { unfold f_sub. rewrite <- (fl_int (e - s)) by lia.
    apply fl_proper. rewrite Hfe, Hfs.
    unfold Zminus. rewrite inject_Z_plus, inject_Z_opp. reflexivity. }
  set (D := f_sub (float_of_int e) (float_of_int s)) in *.
  assert (HD0 : (0 <= inject_Z (e - s))%Q) by (rewrite <- (Zle_Qle 0); lia).
  assert (Hn0 : (0 < inject_Z n)%Q) by (rewrite <- (Zlt_Qlt 0); lia).
  assert (Hi0 : (0 <= inject_Z i)%Q) by (rewrite <- (Zle_Qle 0); lia).
  assert (Hq0 : (0 <= D / float_of_int n)%Q).
  { rewrite Hfn, HD. apply Qle_shift_div_l; [exact Hn0|]. lra. }
  destruct (fl_error (D / float_of_int n) Hq0) as [_ Hup].
  fold (f_div D (float_of_int n)) in Hup.
  set (step := f_div D (float_of_int n)) in *.
  set (q := (D / float_of_int n)%Q) in *.
  assert (Hqn : (q * inject_Z n == inject_Z (e - s))%Q).
  { unfold q. rewrite Hfn, HD. field. lra. }
  assert (Hiu : (inject_Z i + inject_Z i * 2 ^ (-52) <= inject_Z n)%Q).
  { assert (H1 : (inject_Z i * 2 ^ (-52) <= 1)%Q).
    { rewrite <- (two_cancel 52).
      apply Qmult_le_compat_r; [|apply Qlt_le_weak, two_pos].
      rewrite <- two_inject by lia. rewrite <- Zle_Qle. lia. }
    assert (H2 : (inject_Z i + 1 <= inject_Z n)%Q).
    { change 1%Q with (inject_Z 1). rewrite <- inject_Z_plus.
      rewrite <- Zle_Qle. lia. }
    lra. }
  assert (Hoff : (float_of_int i * step <= inject_Z (e - s))%Q).
  { rewrite Hfi, <- Hqn.
    apply Qle_trans with (inject_Z i * (q + q * 2 ^ (-52)))%Q.
    - rewrite !(Qmult_comm (inject_Z i)).
      apply Qmult_le_compat_r; [exact Hup | exact Hi0].
    - apply Qle_trans with (q * (inject_Z i + inject_Z i * 2 ^ (-52)))%Q.
      + ring_simplify. apply Qle_refl.
      + rewrite !(Qmult_comm q).
        apply Qmult_le_compat_r; [exact Hiu | exact Hq0]. }
  assert (Hstep0 : (0 <= step)%Q) by (apply fl_nonneg; exact Hq0).
  assert (Hmul : (f_mul (float_of_int i) step <= inject_Z (e - s))%Q).
  { unfold f_mul. rewrite <- (fl_int (e - s)) by lia.
    apply fl_mono; [|exact Hoff].
    apply Qmult_le_0_compat; [|exact Hstep0]. rewrite Hfi. exact Hi0. }
  assert (Hmul0 : (0 <= f_mul (float_of_int i) step)%Q).
  { apply fl_nonneg. apply Qmult_le_0_compat; [|exact Hstep0].
    rewrite Hfi. exact Hi0. }
  assert (Hs0 : (0 <= inject_Z s)%Q) by (rewrite <- (Zle_Qle 0); lia).
  assert (Hsum : (f_mul (float_of_int i) step + float_of_int s
                  <= inject_Z e)%Q).
  { rewrite Hfs.
    assert (Hes : (inject_Z (e - s) + inject_Z s == inject_Z e)%Q).
    { rewrite <- inject_Z_plus. apply inject_Z_injective. lia. }
    lra. }
  rewrite <- (py_int_inject e). apply py_int_mono.
  - unfold f_add. apply fl_nonneg. rewrite Hfs. lra.
  - unfold f_add. rewrite <- (fl_int e) by lia.
    apply fl_mono; [rewrite Hfs; lra | exact Hsum].
Qed.

Lemma resolve_end_t_le (len : Z) (fps end_t : Q) :
  (resolve_end_t len fps end_t <= f_div (float_of_int len) fps)%Q.
Proof.
  unfold resolve_end_t, py_min.
  destruct (Qeq_bool end_t (-1)); [apply Qle_refl|].
  destruct (Qlt_bool end_t _) eqn:E; [|apply Qle_refl].
  apply Qlt_le_weak, Qlt_bool_iff, E.
Qed.

(** The frame a time within the clip falls on: [int(t * fps)] is at most
    [2 ^ 52] for a clip of fewer frames. *)
Lemma frame_of_time_le (len : Z) (fps t : Q) :
  0 <= len < 2 ^ 52 -> (0 < fps)%Q -> (0 <= t)%Q ->
  (t <= f_div (float_of_int len) fps)%Q ->
  py_int (f_mul t fps) <= 2 ^ 52.
Proof.
  intros Hlen Hfps Ht Hdur.
  pose proof (float_of_int_exact len ltac:(lia)) as Hfl.
  assert (Hl0 : (0 <= inject_Z len)%Q) by (rewrite <- (Zle_Qle 0); lia).
  assert (Hq0 : (0 <= float_of_int len / fps)%Q).
  { rewrite Hfl. apply Qle_shift_div_l; [exact Hfps|]. lra. }
  destruct (fl_error _ Hq0) as [_ Hup].
  fold (f_div (float_of_int len) fps) in Hup.
  set (d := f_div (float_of_int len) fps) in *.
  set (q := (float_of_int len / fps)%Q) in *.
  assert (Hqf : (q * fps == inject_Z len)%Q).
  { unfold q. rewrite Hfl. field. lra. }
  assert (Hu : (inject_Z len * 2 ^ (-52) <= 1)%Q).
  { rewrite <- (two_cancel 52).
    apply Qmult_le_compat_r; [|apply Qlt_le_weak, two_pos].
    rewrite <- two_inject by lia. rewrite <- Zle_Qle. lia. }
  assert (Hsucc : (inject_Z len + 1 <= inject_Z (2 ^ 52))%Q).
  { change 1%Q with (inject_Z 1). rewrite <- inject_Z_plus.
    rewrite <- Zle_Qle. lia. }
  assert (Hprod : (t * fps <= inject_Z (2 ^ 52))%Q).
  { apply Qle_trans with (d * fps)%Q.
    - apply Qmult_le_compat_r; [exact Hdur | lra].
    - apply Qle_trans with ((q + q * 2 ^ (-52)) * fps)%Q.
      + apply Qmult_le_compat_r; [exact Hup | lra].
      + assert (Heq : ((q + q * 2 ^ (-52)) * fps
                       == inject_Z len + inject_Z len * 2 ^ (-52))%Q).
        { rewrite <- Hqf. ring. }
        rewrite Heq. lra. }
  rewrite <- (py_int_inject (2 ^ 52)). apply py_int_mono.
  - apply fl_nonneg. apply Qmult_le_0_compat; lra.
  - unfold f_mul. rewrite <- (fl_int (2 ^ 52)) by lia.
    apply fl_mono; [apply Qmult_le_0_compat; lra | exact Hprod].
Qed.

Lemma frame_of_time_mono (fps t t' : Q) :
  (0 < fps)%Q -> (0 <= t)%Q -> (t <= t')%Q ->
  0 <= py_int (f_mul t fps) <= py_int (f_mul t' fps).
Proof.
  intros Hfps Ht Htt.
  assert (H0 : (0 <= t * fps)%Q) by (apply Qmult_le_0_compat; lra).
  split.
  - apply py_int_pos, fl_nonneg, H0.
  - apply py_int_mono; [apply fl_nonneg, H0|].
    apply fl_mono; [exact H0|]. apply Qmult_le_compat_r; lra.
Qed.

Lemma frame_count_nonneg (start_t stop : Q) (fps : Z) :
  (start_t < stop)%Q -> 0 < fps ->
  0 <= py_int (f_mul (f_sub stop start_t) (float_of_int fps)).
Proof.
  intros Hlt Hfps. apply py_int_pos, fl_nonneg.
  apply Qmult_le_0_compat.
  - apply fl_nonneg. lra.
  - apply float_of_int_nonneg. lia.
Qed.

End VideoSampling.

(** C7 (amended): [prepare_video] resolves [output_fps = -1] to the
    source frame rate TRUNCATED to an integer and [end_t = -1] to the
    duration [len(vr) / initial_fps] (any other [end_t] is clamped to the
    duration); it fails with InvalidInput whenever the resolved values
    violate [0 <= start_t < end_t] or [output_fps > 0].  Otherwise it
    returns when every sampled index is a frame of the clip and both
    resized sides are at least 1 (for a rate and a [resolution] below
    [2 ^ 53]), and what it returns holds
    [int((end_t - start_t) * output_fps)] frame indices, the [i]th being
    [int(i * step + first)] for the float [step = (last - first) / count]
    between the frames [first = int(start_t * initial_fps)] and
    [last = int(end_t * initial_fps)]: none before [first], none past
    [last] (for at most [2 ^ 52] samples), each a frame of the clip.  All
    arithmetic is in floats; the clip has fewer than [2 ^ 52] frames. *)
Theorem prepare_video_contract `{R : Rounding} {F : Faithful R}
    {Dev Dt : Type}
    (videos : gmap string video_reader) (video_path : string)
    (resolution : Z) (device : Dev) (dtype : Dt) (normalize : bool)
    (start_t end_t : Q) (output_fps : Z) (vr : video_reader) :
  videos !! video_path = Some vr ->
  (0 < vr_avg_fps vr)%Q ->
  0 <= vr_len vr < 2 ^ 52 ->
  let initial_fps := vr_avg_fps vr in
  let duration := f_div (float_of_int (vr_len vr)) initial_fps in
  let fps := resolve_output_fps initial_fps output_fps in
  let stop := resolve_end_t (vr_len vr) initial_fps end_t in
  let first := py_int (f_mul start_t initial_fps) in
  let last := py_int (f_mul stop initial_fps) in
  let count := py_int (f_mul (f_sub stop start_t) (float_of_int fps)) in
  let step := f_div (f_sub (float_of_int last) (float_of_int first))
                (float_of_int count) in
  let k := f_div (float_of_int resolution)
             (float_of_int (Z.max (vr_height vr) (vr_width vr))) in
  let h := np_round (f_div (f_mul (float_of_int (vr_height vr)) k) 64) * 64 in
  let w := np_round (f_div (f_mul (float_of_int (vr_width vr)) k) 64) * 64 in
  let run := prepare_video videos video_path resolution device dtype
               normalize start_t end_t output_fps in
  (output_fps = -1 -> fps = py_int initial_fps)
  /\ (output_fps <> -1 -> fps = output_fps)
  /\ ((end_t == -1)%Q -> stop = duration)
  /\ (~ (end_t == -1)%Q -> (duration <= end_t)%Q -> stop = duration)
  /\ (~ (end_t == -1)%Q -> (end_t < duration)%Q -> stop = end_t)
  /\ (~ ((0 <= start_t)%Q /\ (start_t < stop)%Q /\ 0 < fps) ->
      exists msg, run = inl (InvalidInput msg))
  /\ ((0 <= start_t)%Q -> (start_t < stop)%Q -> 0 < fps ->
      (fps < 2 ^ 53 -> 0 <= resolution < 2 ^ 53 ->
       Forall (fun idx => idx < vr_len vr)
         (py_int <$> linspace first last count) ->
       Z.max (vr_height vr) (vr_width vr) <> 0 -> 1 <= h -> 1 <= w ->
       exists v, run = inr (v, fps))
      /\ forall v fps',
           run = inr (v, fps') ->
           fps' = fps
           /\ Z.of_nat (length (frames_of v)) = count
           /\ forall (i : nat) (idx : Z),
                frames_of v !! i = Some idx ->
                idx = py_int (f_add (f_mul (float_of_int (Z.of_nat i)) step)
                                (float_of_int first))
                /\ first <= idx
                /\ (count <= 2 ^ 52 -> idx <= last)
                /\ 0 <= idx < vr_len vr).
Proof.
  intros Hvr Hfps Hlen initial_fps duration fps stop first last count step
    k h w run. subst initial_fps.
  assert (Hnz : Qeq_bool (vr_avg_fps vr) 0 = false).
  { destruct (Qeq_bool (vr_avg_fps vr) 0) eqn:E; [|reflexivity].
    apply Qeq_bool_iff in E. rewrite E in Hfps.
    exfalso. exact (Qlt_irrefl _ Hfps). }
  split; [|split; [|split; [|split; [|split; [|split]]]]].
  - intros ->. reflexivity.
  - intros Hne. unfold fps, resolve_output_fps.
    rewrite decide_False by assumption. reflexivity.
  - intros He. unfold stop, resolve_end_t.
    apply Qeq_bool_iff in He. rewrite He. reflexivity.
  - intros Hne Hle. unfold stop, resolve_end_t.
    destruct (Qeq_bool end_t (-1)) eqn:E;
      [apply Qeq_bool_iff in E; contradiction|].
    unfold py_min. fold duration.
    destruct (Qlt_bool end_t duration) eqn:E'; [|reflexivity].
    apply Qlt_bool_iff in E'. exfalso. exact (Qlt_not_le _ _ E' Hle).
  - intros Hne Hlt. unfold stop, resolve_end_t.
    destruct (Qeq_bool end_t (-1)) eqn:E;
      [apply Qeq_bool_iff in E; contradiction|].
    unfold py_min. fold duration.
    apply Qlt_bool_iff in Hlt. rewrite Hlt. reflexivity.
  - intros Hbad. unfold run, prepare_video. rewrite Hvr, Hnz.
    fold fps stop.
    destruct (Qle_bool 0 start_t && Qlt_bool start_t stop) eqn:E1;
      cbn [negb]; [|eexists; reflexivity].
    destruct (bool_decide (fps > 0)) eqn:E2; cbn [negb];
      [|eexists; reflexivity].
    exfalso. apply Hbad.
    apply andb_true_iff in E1 as [E1 E1'].
    apply Qle_bool_iff in E1. apply Qlt_bool_iff in E1'.
    apply bool_decide_eq_true in E2. repeat split; [assumption..|lia].
  - intros H0 Hlt Hpos.
    assert (Hstop : (stop <= duration)%Q) by apply resolve_end_t_le.
    assert (Hfl : 0 <= first <= last).
    { apply frame_of_time_mono; [exact Hfps | exact H0 | lra]. }
    assert (Hlast : last <= 2 ^ 52).
    { apply (frame_of_time_le (vr_len vr)); [exact Hlen | exact Hfps | lra|].
      exact Hstop. }
    assert (Hcount : 0 <= count) by (apply frame_count_nonneg; assumption).
    split.
    + intros _ _ Hvalid Hmax Hh Hw. unfold run, prepare_video.
      rewrite Hvr, Hnz. fold fps stop.
      assert (E1 : Qle_bool 0 start_t && Qlt_bool start_t stop = true).
      { apply andb_true_iff. split;
          [apply Qle_bool_iff | apply Qlt_bool_iff]; assumption. }
      rewrite E1. cbn [negb].
      rewrite bool_decide_eq_true_2 by lia. cbn [negb].
      fold first last count.
      assert (E2 : forallb (valid_index (vr_len vr))
                     (py_int <$> linspace first last count) = true).
      { apply forallb_forall. intros idx Hin.
        pose proof (proj1 (Forall_forall _ _) Hvalid idx
                      ltac:(apply list_elem_of_In; exact Hin)) as Hidx.
        apply list_elem_of_In, list_elem_of_lookup in Hin as [i Hi].
        apply lookup_linspace in Hi as [Hi ->].
        apply valid_index_bound; [|exact Hidx].
        pose proof (entry_ge first last count (Z.of_nat i)
                      ltac:(lia) ltac:(lia) ltac:(lia) ltac:(lia)). lia. }
      rewrite E2. cbn [negb].
      rewrite decide_False by exact Hmax. fold k h w.
      rewrite decide_True by (split; assumption).
      eexists. reflexivity.
    + intros v fps' Hrun.
      destruct (prepare_video_inr _ _ _ _ _ _ _ _ _ _ _ Hrun)
        as (vr' & Hvr' & _ & _ & _ & Hfps' & _ & _ & Hframes & Hvalid & _).
      rewrite Hvr in Hvr'. injection Hvr' as <-.
      fold fps in Hfps'. subst fps'.
      fold stop first last fps count in Hframes.
      split; [reflexivity|].
      split; [rewrite Hframes; apply length_linspace; exact Hcount|].
      intros i idx Hi.
      assert (Hin : In idx (frames_of v)).
      { apply list_elem_of_In, list_elem_of_lookup. exists i. exact Hi. }
      pose proof (proj1 (forallb_forall _ _) Hvalid idx Hin) as Hidx.
      rewrite Hframes in Hi.
      apply lookup_linspace in Hi as [Hlt' ->].
      pose proof (entry_ge first last count (Z.of_nat i)
                    ltac:(lia) ltac:(lia) ltac:(lia) ltac:(lia)) as Hge.
      split; [reflexivity|]. split; [exact Hge|]. split.
      * intros Hc. apply entry_le; lia.
      * split; [lia|]. apply valid_index_bound in Hidx; [exact Hidx | lia].
Qed.

(** The theorem in binary64, on a clip of 98 frames at 24 frames per
    second sampled from 0.25 s to its end at 30 frames per second: the
    duration [98 / 24] and the difference to 0.25 are rounded, and 114
    frames are sampled where 115 fit. *)
Lemma prepare_video_contract_witness :
  exists v idx,
    prepare_video (R:=binary64) film_clip "film.mp4" 512 tt tt true (1 # 4)
      (-1) 30 = inr (v, 30)
    /\ Z.of_nat (length (frames_of v)) = 114
    /\ frames_of v !! 113%nat = Some idx
    /\ 6 <= idx < 98.
Proof.
  destruct (prepare_video_contract (R:=binary64) (F:=binary64_faithful)
              film_clip "film.mp4" 512 tt tt true (1 # 4) (-1) 30
              film_reader)
    as (_ & _ & _ & _ & _ & _ & Hrun).
  - reflexivity.
  - reflexivity.
  - vm_compute. split; [discriminate | reflexivity].
  - destruct Hrun as [Hreturns Hsampled].
    + vm_compute. discriminate.
    + vm_compute. reflexivity.
    + reflexivity.
    + destruct Hreturns as [v Hv].
      * reflexivity.
      * split; [discriminate | reflexivity].
      * apply (bool_decide_unpack _). vm_compute. exact I.
      * vm_compute. discriminate.
      * vm_compute. discriminate.
      * vm_compute. discriminate.
      * destruct (Hsampled v 30 Hv) as (_ & Hcount & Hidx).
        assert (Hsome : is_Some (frames_of v !! 113%nat)).
        { apply lookup_lt_is_Some. apply Nat2Z.inj_lt. rewrite Hcount.
          vm_compute. reflexivity. }
        destruct Hsome as [idx Hi].
        destruct (Hidx 113%nat idx Hi) as (_ & Hfirst & _ & Hbound).
        exists v, idx. split; [exact Hv|].
        split; [rewrite Hcount; vm_compute; reflexivity|].
        split; [exact Hi|].
        split; [exact Hfirst | apply Hbound].
Defined.

(** C7 as stated fails: for the 29.97 frames-per-second clip the resolved
    rate is 29, not the source rate, and 290 frames are sampled where
    [(end_t - start_t) * output_fps] is not an integer. *)
Lemma prepare_video_rate_counterexample :
  exists v fps,
    prepare_video (R:=binary64) ntsc_clip "clip.mp4" 512 tt tt true 0 (-1)
      (-1) = inr (v, fps)
    /\ ~ (inject_Z fps == vr_avg_fps ntsc_reader)%Q
    /\ ~ (inject_Z (Z.of_nat (length (frames_of v)))
          == f_mul (R:=binary64)
               (f_sub (R:=binary64)
                  (resolve_end_t (R:=binary64) 300 ntsc_rate (-1)) 0)
               (float_of_int (R:=binary64) fps))%Q.
Proof.
  eexists _, _. split; [vm_compute; reflexivity|].
  split; intros Heq; vm_compute in Heq; discriminate.
Qed.
(** ** utils.py: post_process_gif *)

(** C10 (amended): the result of [post_process_gif] never depends on
    [image_resolution], and whenever it returns, it returns the fixed path
    [/tmp/ddxk.gif] after writing the frames there at 4 frames per second,
    every other path left alone.  It returns for a non-empty list of
    frames that imageio accepts; on the empty list imageio raises and no
    path is returned. *)
Theorem post_process_gif_fixed_output {Res1 Res2 : Type}
    (list_of_results : list (tensor Z)) (r1 : Res1) (r2 : Res2)
    (disk : gmap string file) :
  let path := "/tmp/ddxk.gif" in
  post_process_gif list_of_results r1 disk
  = post_process_gif list_of_results r2 disk
  /\ (forall out disk',
        post_process_gif list_of_results r1 disk = inr (out, disk') ->
        out = path
        /\ disk' !! path = Some (Animation list_of_results 4)
        /\ forall other, other <> path -> disk' !! other = disk !! other)
  /\ (list_of_results <> [] -> forallb is_frame list_of_results = true ->
      exists disk', post_process_gif list_of_results r1 disk
                    = inr (path, disk'))
  /\ (list_of_results = [] ->
      post_process_gif list_of_results r1 disk
      = inl (LibraryError "Zero images were written.")).
Proof.
  intros path. unfold post_process_gif, mimsave.
  split; [reflexivity|]. split; [|split].
  - intros out disk' Hrun.
    destruct list_of_results as [|frame frames]; [discriminate|].
    destruct (forallb is_frame (frame :: frames)); [|discriminate].
    injection Hrun as <- <-.
    split; [reflexivity|]. split; [apply lookup_insert_eq|].
    intros other Hne. apply lookup_insert_ne.
    intros Heq. apply Hne. symmetry. exact Heq.
  - intros Hne Hframes.
    destruct list_of_results as [|frame frames]; [congruence|].
    rewrite Hframes. eexists. reflexivity.
  - intros ->. reflexivity.
Qed.

Lemma post_process_gif_fixed_output_witness :
  exists disk',
    post_process_gif [square_canvas; square_canvas] 512 ∅
    = inr ("/tmp/ddxk.gif", disk').
Proof.
  destruct (post_process_gif_fixed_output (Res2:=Z)
              [square_canvas; square_canvas] 512 512 ∅)
    as (_ & _ & Hreturns & _).
  apply Hreturns; [discriminate | reflexivity].
Defined.

(** C10 as stated fails: on the empty list of results nothing is
    returned, the fixed path included. *)
Lemma post_process_gif_empty_counterexample :
  post_process_gif (Res:=Z) [] 512 ∅
  = inl (LibraryError "Zero images were written.")
  /\ forall out, post_process_gif (Res:=Z) [] 512 ∅ <> inr out.
Proof. split; [reflexivity | discriminate]. Qed.
(** ** app.py *)

(** C9 as stated fails: with the variable set to the empty string the
    shell launches as it does without the variable (link printed, no
    banner). *)
Lemma empty_author_counterexample :
  environ_get empty_author "SPACE_AUTHOR_NAME" = Some ""
  /\ main empty_author false = local_launch false
  /\ main empty_author false <> managed_launch
  /\ In PrintLink (main empty_author false)
  /\ ~ In DuplicateBanner (main empty_author false).
Proof.
  split; [reflexivity|]. split; [reflexivity|].
  split; [vm_compute; discriminate|].
  split; [vm_compute; tauto|].
  vm_compute. intros Hin.
  repeat (destruct Hin as [Hin|Hin]; [discriminate|]). exact Hin.
Qed.

(** C9 (amended): the shell takes the managed-hosting launch (banner,
    queue of at most 20, debug logging, no link printed) exactly when the
    variable is set to a NON-EMPTY value; when it is absent or empty the
    shell launches with the queue's API closed, serves [temporal], shares
    per [--public_access] and prints the link. *)
Theorem launch_policy (environ : gmap string string) (public_access : bool) :
  main environ public_access
  = match environ_get environ "SPACE_AUTHOR_NAME" with
    | Some name =>
        if decide (name = "") then local_launch public_access
        else managed_launch
    | None => local_launch public_access
    end.
Proof.
  unfold main, on_huggingspace.
  destruct (environ_get environ "SPACE_AUTHOR_NAME") as [name|]; [|reflexivity].
  cbn [truthy]. destruct (decide (name = "")) as [->|Hne]; [reflexivity|].
  destruct (String.eqb name "") eqn:E; [|reflexivity].
  apply String.eqb_eq in E. contradiction.
Qed.

(** ** custom_pipeline.py: prepare_text_inputs *)

Section TextInputs.
Context `{Models}.

Lemma length_encode (max_length : Z) (text : string) :
  2 <= max_length ->
  length (encode max_length true text) = Z.to_nat max_length.
Proof.
  intros HL. unfold encode.
  rewrite length_app, length_replicate. cbn [length].
  rewrite length_app, length_take. cbn [length]. lia.
Qed.

Lemma encode_short (max_length : Z) (text : string) :
  Z.of_nat (length (bpe text)) + 2 <= max_length ->
  encode max_length true text
  = bos_token_id :: bpe text ++ [eos_token_id]
    ++ replicate (Z.to_nat max_length - length (bpe text) - 2) pad_token_id.
Proof.
  intros Hle. unfold encode.
  rewrite take_ge by lia. cbn [app length].
  rewrite length_app. cbn [length]. rewrite <- app_assoc.
  do 4 f_equal. lia.
Qed.

Lemma encode_long (max_length : Z) (text : string) :
  2 <= max_length ->
  max_length < Z.of_nat (length (bpe text)) + 2 ->
  encode max_length true text
  = bos_token_id :: take (Z.to_nat (max_length - 2)) (bpe text)
    ++ [eos_token_id].
Proof.
  intros HL Hlt. unfold encode. cbn [length].
  rewrite length_app, length_take. cbn [length].
  replace (Z.to_nat max_length
           - Datatypes.S (Nat.min (Z.to_nat (max_length - 2))
                             (length (bpe text)) + 1))%nat
    with O by lia.
  cbn [replicate]. rewrite app_nil_r. reflexivity.
Qed.

Lemma np_array_rows (rows : list (list Z)) (n : nat) :
  rows <> [] -> Forall (fun r => length r = n) rows ->
  np_array rows
  = inr (MkTensor [Z.of_nat (length rows); Z.of_nat n] (concat rows)).
Proof.
  intros Hne Hall. destruct rows as [|r rows]; [contradiction|].
  unfold np_array.
  assert (Hr : length r = n) by (inversion Hall; assumption).
  assert (Hb : forallb (fun r' => Nat.eqb (length r') (length r)) (r :: rows)
               = true).
  { apply forallb_forall. intros r' Hin.
    rewrite Forall_forall in Hall. apply Nat.eqb_eq.
    rewrite Hr. apply Hall. apply list_elem_of_In. exact Hin. }
  rewrite Hb, Hr. reflexivity.
Qed.

Lemma tokenizer_call_texts (texts : list string) (max_length : Z)
    (truncation : bool) :
  texts <> [] ->
  tokenizer_call (PyList (PyStr <$> texts)) max_length truncation
  = let* ids := lift (np_array (encode max_length truncation <$> texts)) in
    call EvTokenizer ids.
Proof.
  intros Hne. destruct texts as [|t texts]; [contradiction|].
  unfold tokenizer_call.
  change (PyStr <$> t :: texts) with (PyStr t :: (PyStr <$> texts)).
  cbv beta iota.
  change (PyStr t :: (PyStr <$> texts)) with (PyStr <$> t :: texts).
  rewrite mapM_fmap_Some by reflexivity. reflexivity.
Qed.

(** C8 (amended): for a single string or a non-empty list of strings
    [prepare_text_inputs] returns integer token ids whose rows all have
    the tokenizer's maximum length, each prompt padded when short and
    truncated when long; the empty list passes the type check and the
    tokenizer raises on it; for a prompt of any other type
    [prepare_text_inputs] raises InvalidInput and yields no value.  (The
    tokenizer's maximum length is at least 2, as it frames every prompt
    with two markers.) *)
Theorem prepare_text_inputs_fixed_length :
  2 <= model_max_length ->
  (forall text,
     length (encode model_max_length true text) = Z.to_nat model_max_length
     /\ (Z.of_nat (length (bpe text)) + 2 <= model_max_length ->
         encode model_max_length true text
         = bos_token_id :: bpe text ++ [eos_token_id]
           ++ replicate (Z.to_nat model_max_length - length (bpe text) - 2)
                pad_token_id)
     /\ (model_max_length < Z.of_nat (length (bpe text)) + 2 ->
         encode model_max_length true text
         = bos_token_id :: take (Z.to_nat (model_max_length - 2)) (bpe text)
           ++ [eos_token_id]))
  /\ (forall text,
        prepare_text_inputs (PyStr text)
        = MkM [EvTokenizer]
            (inr (MkTensor [1; model_max_length]
                    (encode model_max_length true text))))
  /\ (forall texts, texts <> [] ->
        prepare_text_inputs (PyList (PyStr <$> texts))
        = MkM [EvTokenizer]
            (inr (MkTensor [Z.of_nat (length texts); model_max_length]
                    (concat (encode model_max_length true <$> texts)))))
  /\ (exists msg,
        prepare_text_inputs (PyList []) = MkM [] (inl (LibraryError msg)))
  /\ (forall prompt,
        (forall text, prompt <> PyStr text) ->
        (forall l, prompt <> PyList l) ->
        exists msg, prepare_text_inputs prompt = MkM [] (inl (InvalidInput msg))).
Proof.
  intros HL. split; [|split; [|split; [|split]]].
  - intros text. split; [apply length_encode; assumption|].
    split; [apply encode_short | apply encode_long; assumption].
  - intros text. unfold prepare_text_inputs, tokenizer_call.
    rewrite (np_array_rows _ (Z.to_nat model_max_length)).
    + rewrite bind_lift_inr. cbn [length concat]. rewrite app_nil_r.
      rewrite Z2Nat.id by lia. reflexivity.
    + discriminate.
    + repeat constructor. apply length_encode. assumption.
  - intros texts Hne. unfold prepare_text_inputs.
    rewrite tokenizer_call_texts by exact Hne.
    rewrite (np_array_rows _ (Z.to_nat model_max_length)).
    + rewrite bind_lift_inr, length_fmap, Z2Nat.id by lia. reflexivity.
    + destruct texts; [contradiction|discriminate].
    + apply Forall_fmap, Forall_forall. intros text _.
      apply length_encode. assumption.
  - eexists. reflexivity.
  - intros prompt Hstr Hlist. unfold prepare_text_inputs.
    destruct prompt; try (eexists; reflexivity).
    + exfalso. eapply Hstr. reflexivity.
    + exfalso. eapply Hlist. reflexivity.
Qed.

End TextInputs.

(** The theorem with the character tokenizer of length 77. *)
Lemma prepare_text_inputs_fixed_length_witness :
  prepare_text_inputs (H:=toy_models []) (PyStr "a cat")
  = MkM [EvTokenizer]
      (inr (MkTensor [1; 77]
              ([49406; 97; 32; 99; 97; 116; 49407]
               ++ replicate 70%nat 49407)))
  /\ exists msg,
       prepare_text_inputs (H:=toy_models []) (PyInt 7)
       = MkM [] (inl (InvalidInput msg)).
Proof.
  destruct (prepare_text_inputs_fixed_length (H:=toy_models []))
    as (_ & Hstr & _ & _ & Hother).
  - vm_compute. discriminate.
  - split.
    + rewrite (Hstr "a cat"). vm_compute. reflexivity.
    + apply Hother; discriminate.
Defined.

(** C8 as stated fails on the empty list: it is a list of strings, and
    no array comes back. *)
Lemma prepare_text_inputs_empty_list_counterexample :
  prepare_text_inputs (H:=toy_models []) (PyList (PyStr <$> []))
  = MkM [] (inl (LibraryError "the tokenizer got an empty batch")).
Proof. reflexivity. Qed.

(** ** custom_pipeline.py: the checks of _generate *)

Lemma last_two_app (pre : list Z) (h w : Z) :
  Pipeline.last_two (pre ++ [h; w]) = inr (h, w).
Proof.
  unfold last_two. rewrite reverse_app. reflexivity.
Qed.


(** Entering [_generate] with an image of height [h] and width [w]. *)
Ltac enter_generate Hshape :=
  unfold _generate, _generate_with;
  rewrite Hshape, last_two_app, !bind_lift_inr.

Section Generate.
Context `{Models}.

Variables (prompt_ids : tensor Z) (image : tensor float) (params : Params)
  (prng_seed : PRNGKey) (num_inference_steps : Z)
  (guidance_scale : tensor float) (neg_prompt_ids : option (tensor Z))
  (controlnet_conditioning_scale : tensor float).


(** C4: when the height or the width of the conditioning image is not
    divisible by 64, [_generate] (and with it a call that is not
    replicated) fails with InvalidInput before any model is invoked: the
    trace of external calls is empty.  When both are divisible by 64 the
    check passes and the run goes on to the text encoder. *)
Theorem generate_requires_multiples_of_64
    (latents : option (tensor float)) (pre : list Z) (height width : Z)
    (_p_generate : generator)
    (p_get_has_nsfw_concepts : tensor float -> Weights -> list bool)
    (gs ccs : float + tensor float) (return_dict : bool) :
  shape image = pre ++ [height; width] ->
  (height mod 64 <> 0 \/ width mod 64 <> 0 ->
     (exists msg,
        _generate prompt_ids image params prng_seed num_inference_steps
          guidance_scale latents neg_prompt_ids controlnet_conditioning_scale
        = MkM [] (inl (InvalidInput msg)))
     /\ (shape prompt_ids <> [] ->
         exists msg,
           __call__ _p_generate p_get_has_nsfw_concepts prompt_ids image
             params prng_seed num_inference_steps gs latents neg_prompt_ids
             ccs return_dict false
           = MkM [] (inl (InvalidInput msg))))
  /\ (height mod 64 = 0 -> width mod 64 = 0 ->
      exists rest,
        trace (_generate prompt_ids image params prng_seed
                 num_inference_steps guidance_scale latents neg_prompt_ids
                 controlnet_conditioning_scale)
        = EvTextEncoder :: rest).
Proof.
  intros Hshape.
  assert (Hbad : forall g c, height mod 64 <> 0 \/ width mod 64 <> 0 ->
            exists msg,
            _generate prompt_ids image params prng_seed num_inference_steps
              g latents neg_prompt_ids c
            = MkM [] (inl (InvalidInput msg))).
  { intros g c Hor. enter_generate Hshape.
    rewrite decide_True by assumption. eexists. reflexivity. }
  split.
  - intros Hor. split; [apply Hbad; assumption|].
    intros Hids. unfold __call__.
    rewrite Hshape, last_two_app, bind_lift_inr.
    assert (Hpd : forall x, exists arr, per_device prompt_ids x = inr arr).
    { intros [x|arr]; simpl; [|eauto].
      destruct (shape prompt_ids) as [|n rest]; [contradiction|]. simpl.
      destruct (decide _); eauto. }
    destruct (Hpd gs) as [g ->]. rewrite bind_lift_inr.
    destruct (Hpd ccs) as [c ->]. rewrite bind_lift_inr.
    destruct (Hbad g c Hor) as [msg ->]. exists msg. reflexivity.
  - intros Hh Hw. enter_generate Hshape.
    rewrite decide_False by lia.
    unfold text_context. rewrite !trace_bind. cbn [trace call app].
    eexists. reflexivity.
Qed.

End Generate.

(** The check at a 300 x 300 conditioning image. *)
Lemma generate_requires_multiples_of_64_witness :
  exists msg,
    _generate (H:=toy_models []) one_prompt unaligned_image (toy_params [])
      7 50 single_scale None None single_scale
    = MkM [] (inl (InvalidInput msg)).
Proof.
  destruct (generate_requires_multiples_of_64 (H:=toy_models [])
              one_prompt unaligned_image (toy_params []) 7 50 single_scale
              None single_scale None [1; 3] 300 300
              (fun _ _ _ _ _ _ _ _ _ => raise IndexError) (fun _ _ => [])
              (inl (15 # 2)%Q) (inl 1%Q) true eq_refl) as [Hbad _].
  destruct Hbad as [Hgen _]; [left; vm_compute; discriminate|].
  exact Hgen.
Defined.


(** ** custom_pipeline.py: the two loop strategies *)

Section Loops.
Context {S T : Type} `{EqDecision T} (aval : S -> T)
  (body : Z -> S -> M S).

Lemma for_each_seqZ_fori (count : nat) (i : Z) (s : S) :
  for_each (seqZ i (Z.of_nat count)) body s = fori_loop_from count i body s.
Proof.
  revert i s. induction count as [|count IH]; intros i s.
  - reflexivity.
  - rewrite seqZ_cons by lia. cbn [for_each fori_loop_from].
    apply bind_ext. intros s'.
    replace (Z.pred (Z.of_nat (Datatypes.S count))) with (Z.of_nat count) by lia.
    rewrite IH. reflexivity.
Qed.

Lemma for_range_fori_loop_from (n : Z) (s : S) :
  for_each (range n) body s = fori_loop_from (Z.to_nat n) 0 body s.
Proof.
  unfold range.
  destruct (Z.le_gt_cases n 0) as [Hle|Hgt].
  - rewrite seqZ_nil by assumption.
    replace (Z.to_nat n) with O by lia. reflexivity.
  - rewrite <- for_each_seqZ_fori. f_equal. f_equal. lia.
Qed.

(** Once staging went through, [fori_loop] is the sequential loop. *)
Lemma fori_loop_staged (n : Z) (s val : S) :
  outcome (body 0 s) = inr val -> aval val = aval s ->
  fori_loop aval 0 n body s = for_each (range n) body s.
Proof.
  intros Hval Haval. unfold fori_loop.
  rewrite Hval, decide_True by exact Haval.
  rewrite Z.sub_0_r. symmetry. apply for_range_fori_loop_from.
Qed.

Lemma fori_loop_returns (n : Z) (s r : S) :
  outcome (fori_loop aval 0 n body s) = inr r ->
  fori_loop aval 0 n body s = for_each (range n) body s.
Proof.
  intros Hr. unfold fori_loop in Hr.
  destruct (outcome (body 0 s)) as [e|val] eqn:Hval; [discriminate|].
  destruct (decide (aval val = aval s)) as [Haval|]; [|discriminate].
  exact (fori_loop_staged n s val Hval Haval).
Qed.


End Loops.

(** ** Arrays: shapes, halves and broadcasting *)

Lemma numel_app (a b : list Z) : numel (a ++ b) = numel a * numel b.
Proof.
  unfold numel. induction a as [|x a IH]; cbn [foldr app].
  - lia.
  - fold (numel (a ++ b)) in *. rewrite IH. lia.
Qed.

Lemma numel_reverse (s : list Z) : numel (reverse s) = numel s.
Proof.
  induction s as [|x s IH]; [reflexivity|].
  rewrite reverse_cons, numel_app, IH. unfold numel. cbn [foldr]. lia.
Qed.

Lemma numel_nonneg (s : list Z) : Forall (fun d => 0 <= d) s -> 0 <= numel s.
Proof.
  induction 1 as [|d s Hd _ IH]; unfold numel in *; cbn [foldr]; [lia|nia].
Qed.

Lemma broadcast_rev_same (s : list Z) : broadcast_rev s s = Some s.
Proof.
  induction s as [|d s IH]; [reflexivity|].
  cbn [broadcast_rev]. rewrite IH, decide_True by reflexivity. reflexivity.
Qed.

Lemma broadcast_rev_ones (ones s : list Z) :
  Forall (eq 1) ones -> (length ones <= length s)%nat ->
  broadcast_rev ones s = Some s.
Proof.
  intros Hones. revert s.
  induction Hones as [|d ones <- _ IH]; intros s Hlen.
  - destruct s; reflexivity.
  - destruct s as [|y s]; [cbn in Hlen; lia|].
    cbn [broadcast_rev]. rewrite IH by (cbn in Hlen; lia).
    destruct (decide (1 = y)) as [<-|_]; [reflexivity|].
    rewrite decide_True by reflexivity. reflexivity.
Qed.

Lemma ravel_unravel (srev : list Z) (k : Z) :
  Forall (fun d => 0 <= d) srev -> 0 <= k < numel srev ->
  ravel_rev (unravel_rev k srev) srev = k.
Proof.
  intros Hs. revert k.
  induction Hs as [|d s Hd Hs IH]; intros k Hk.
  - unfold numel in Hk. cbn in Hk. cbn. lia.
  - unfold numel in Hk. cbn [foldr] in Hk. fold (numel s) in Hk.
    assert (0 < d).
    { destruct (decide (d = 0)) as [->|]; [rewrite Z.mul_0_l in Hk|]; lia. }
    assert (0 <= numel s) by (apply numel_nonneg; assumption).
    cbn [unravel_rev ravel_rev].
    rewrite IH.
    + destruct (decide (d = 1)) as [->|_].
      * rewrite Z.div_1_r. lia.
      * pose proof (Z.div_mod k d ltac:(lia)). lia.
    + split; [apply Z.div_pos; lia|].
      apply Z.div_lt_upper_bound; lia.
Qed.

Lemma ravel_ones (coords ones : list Z) :
  Forall (eq 1) ones -> ravel_rev coords ones = 0.
Proof.
  intros Hones. revert coords.
  induction Hones as [|d ones <- _ IH]; intros coords.
  - destruct coords; reflexivity.
  - destruct coords as [|c cs]; [reflexivity|].
    cbn [ravel_rev]. rewrite IH, decide_True by reflexivity. lia.
Qed.

Lemma omap_seqZ {A B} (F : Z -> option B) (h : A -> B) (l : list A) (m : Z) :
  (forall i a, l !! i = Some a -> F (m + Z.of_nat i) = Some (h a)) ->
  omap F (seqZ m (Z.of_nat (length l))) = h <$> l.
Proof.
  revert m. induction l as [|a l IH]; intros m HF; [reflexivity|].
  rewrite seqZ_cons by (cbn [length]; lia).
  pose proof (HF O a eq_refl) as H0. rewrite Z.add_0_r in H0.
  cbn. rewrite H0. f_equal.
  replace (Z.pred (Z.of_nat (Datatypes.S (length l))))
    with (Z.of_nat (length l)) by lia.
  apply IH. intros i b Hi.
  replace (Z.succ m + Z.of_nat i) with (m + Z.of_nat (Datatypes.S i)) by lia.
  apply HF. exact Hi.
Qed.

Lemma broadcast_get_own {A} (t : tensor A) (k : Z) :
  well_formed t -> 0 <= k < numel (shape t) ->
  broadcast_get t (reverse (shape t)) k = data t !! Z.to_nat k.
Proof.
  intros [Hpos _] Hk. unfold broadcast_get.
  rewrite ravel_unravel; [reflexivity| |].
  - apply Forall_reverse. exact Hpos.
  - rewrite numel_reverse. exact Hk.
Qed.

Lemma broadcast2_same_shape {A B C} (f : A -> B -> C) (a : tensor A)
    (b : tensor B) :
  well_formed a -> well_formed b -> shape a = shape b ->
  broadcast2 f a b = inr (tmap2 f a b).
Proof.
  intros Ha Hb Hs. unfold broadcast2, broadcast_shapes.
  rewrite <- Hs, broadcast_rev_same. cbn [fmap option_fmap option_map].
  rewrite reverse_involutive. unfold tmap2. do 2 f_equal.
  rewrite zip_with_zip.
  assert (Hlen : numel (shape a) = Z.of_nat (length (zip (data a) (data b)))).
  { rewrite length_zip. destruct Ha as [_ Ha], Hb as [_ Hb].
    rewrite <- Hs in Hb. lia. }
  rewrite Hlen. apply omap_seqZ. intros i [x y] Hi.
  apply lookup_zip_Some in Hi as [Hx Hy].
  assert (Hk : 0 <= 0 + Z.of_nat i < numel (shape a)).
  { apply lookup_lt_Some in Hx. destruct Ha as [_ Ha]. lia. }
  rewrite (broadcast_get_own a) by assumption.
  rewrite Hs. rewrite (broadcast_get_own b) by (rewrite <- ?Hs; assumption).
  replace (Z.to_nat (0 + Z.of_nat i)) with i by lia.
  rewrite Hx, Hy. reflexivity.
Qed.

Lemma broadcast2_scalar_l {A B C} (f : A -> B -> C) (g : tensor A) (v : A)
    (x : tensor B) :
  data g = [v] -> Forall (eq 1) (shape g) ->
  (length (shape g) <= length (shape x))%nat -> well_formed x ->
  broadcast2 f g x = inr (tmap (f v) x).
Proof.
  intros Hv Hones Hrank Hx. unfold broadcast2, broadcast_shapes.
  rewrite broadcast_rev_ones;
    [|apply Forall_reverse; assumption|rewrite !length_reverse; assumption].
  cbn [fmap option_fmap option_map].
  rewrite reverse_involutive. unfold tmap. do 2 f_equal.
  destruct Hx as [Hpos Hlen]. rewrite <- Hlen.
  apply omap_seqZ. intros i y Hi.
  assert (Hk : 0 <= 0 + Z.of_nat i < numel (shape x)).
  { apply lookup_lt_Some in Hi. lia. }
  rewrite (broadcast_get_own x) by first [exact (conj Hpos Hlen) | exact Hk].
  unfold broadcast_get. rewrite ravel_ones by (apply Forall_reverse; assumption).
  rewrite Hv. replace (Z.to_nat (0 + Z.of_nat i)) with i by lia.
  rewrite Hi. reflexivity.
Qed.

Lemma split2_halves {A} (x : tensor A) (n : Z) (rest : list Z) :
  well_formed x -> shape x = n :: rest -> n mod 2 = 0 ->
  exists lo hi,
    split2 x = inr (lo, hi)
    /\ shape lo = n / 2 :: rest /\ shape hi = n / 2 :: rest
    /\ data x = data lo ++ data hi
    /\ length (data lo) = length (data hi)
    /\ well_formed lo /\ well_formed hi.
Proof.
  intros [Hpos Hlen] Hs Hn. unfold split2. rewrite Hs.
  rewrite decide_True by assumption.
  rewrite Hs in Hpos, Hlen.
  apply Forall_cons in Hpos as [Hn0 Hrest].
  pose proof (numel_nonneg rest Hrest) as Hr.
  unfold numel in Hlen. cbn [foldr] in Hlen. fold (numel rest) in Hlen.
  assert (Hhalf : n = 2 * (n / 2)) by (apply Z_div_exact_2; lia).
  assert (H2 : 0 <= n / 2) by lia.
  set (k := Z.to_nat (n / 2 * numel rest)).
  assert (Hk : length (data x) = (k + k)%nat) by (unfold k; nia).
  eexists _, _. split; [reflexivity|]. cbn [shape data].
  split; [reflexivity|]. split; [reflexivity|].
  split; [symmetry; apply take_drop|].
  assert (Hlo : length (take k (data x)) = k) by (rewrite length_take; lia).
  assert (Hhi : length (drop k (data x)) = k) by (rewrite length_drop; lia).
  split; [congruence|].
  assert (Hnum : numel (n / 2 :: rest) = Z.of_nat k).
  { unfold numel, k. cbn [foldr]. fold (numel rest). nia. }
  split; (split; cbn [shape data];
          [apply Forall_cons; split; assumption | congruence]).
Qed.

Lemma well_formed_tmap2 {A B C} (f : A -> B -> C) (a : tensor A)
    (b : tensor B) :
  well_formed a -> length (data a) = length (data b) ->
  well_formed (tmap2 f a b).
Proof.
  intros [Hpos Hlen] Hab. split; [exact Hpos|].
  cbn [tmap2 shape data]. rewrite length_zip_with. lia.
Qed.

Lemma well_formed_tmap {A B} (f : A -> B) (a : tensor A) :
  well_formed a -> well_formed (tmap f a).
Proof.
  intros [Hpos Hlen]. split; [exact Hpos|].
  cbn [tmap shape data]. rewrite length_fmap. exact Hlen.
Qed.

(** ** custom_pipeline.py: classifier-free guidance in loop_body *)

Section Guidance.
Context `{Models}.

Lemma guide_scalar (guidance_scale uncond text : tensor float) (g : float) :
  data guidance_scale = [g] -> Forall (eq 1) (shape guidance_scale) ->
  (length (shape guidance_scale) <= length (shape uncond))%nat ->
  well_formed uncond -> well_formed text -> shape uncond = shape text ->
  length (data uncond) = length (data text) ->
  guide guidance_scale uncond text
  = inr (tmap2 r_add uncond (tmap (r_mul g) (tmap2 r_sub text uncond))).
Proof.
  intros Hg Hones Hrank Hu Ht Hs Hlen. unfold guide.
  rewrite broadcast2_same_shape by (try assumption; congruence).
  assert (Hd : well_formed (tmap2 r_sub text uncond))
    by (apply well_formed_tmap2; [assumption|congruence]).
  rewrite (broadcast2_scalar_l r_mul guidance_scale g); try assumption;
    [|cbn [tmap2 shape]; congruence].
  apply broadcast2_same_shape.
  - assumption.
  - apply well_formed_tmap. exact Hd.
  - cbn [tmap tmap2 shape]. exact Hs.
Qed.

(** C1: in an iteration of the denoising loop, the prediction of the
    denoiser on the doubled batch is split in two equal halves along the
    batch axis, the unconditional half first; the final prediction is,
    entry by entry, [uncond + guidance_scale * (text - uncond)]; and the
    scheduler advances the latents with exactly this prediction.  The
    guidance scale is the one value each device holds, and the denoiser's
    output is an array with an even batch. *)
Theorem loop_body_classifier_free_guidance
    (params : Params) (context image : tensor float)
    (guidance_scale controlnet_conditioning_scale : tensor float)
    (step_index : Z) (latents : tensor float)
    (scheduler_state : SchedulerState)
    (latents_input noise_pred : tensor float) (t n : Z) (rest : list Z)
    (g : float) :
  concatenate_twice latents = inr latents_input ->
  jnp_index (timesteps scheduler_state) step_index = inr t ->
  outcome (predict_noise params context image controlnet_conditioning_scale
             scheduler_state latents_input t) = inr noise_pred ->
  well_formed noise_pred -> shape noise_pred = n :: rest -> n mod 2 = 0 ->
  data guidance_scale = [g] -> Forall (eq 1) (shape guidance_scale) ->
  (length (shape guidance_scale) <= length (shape noise_pred))%nat ->
  exists noise_pred_uncond noise_prediction_text guided,
    split2 noise_pred = inr (noise_pred_uncond, noise_prediction_text)
    /\ data noise_pred = data noise_pred_uncond ++ data noise_prediction_text
    /\ length (data noise_pred_uncond) = length (data noise_prediction_text)
    /\ shape noise_pred_uncond = n / 2 :: rest
    /\ shape noise_prediction_text = n / 2 :: rest
    /\ guide guidance_scale noise_pred_uncond noise_prediction_text
       = inr guided
    /\ shape guided = n / 2 :: rest
    /\ length (data guided) = length (data noise_pred_uncond)
    /\ (forall (i : nat) (u x : float),
          data noise_pred_uncond !! i = Some u ->
          data noise_prediction_text !! i = Some x ->
          data guided !! i = Some (r_add u (r_mul g (r_sub x u))))
    /\ outcome (loop_body params context image guidance_scale
                  controlnet_conditioning_scale step_index
                  (latents, scheduler_state))
       = inr (step scheduler_state guided t latents).
Proof.
  intros Hcat Ht Hnoise Hwf Hshape Heven Hg Hones Hrank.
  destruct (split2_halves noise_pred n rest Hwf Hshape Heven)
    as (u & x & Hsplit & Hsu & Hsx & Hdata & Hlen & Hwu & Hwx).
  exists u, x, (tmap2 r_add u (tmap (r_mul g) (tmap2 r_sub x u))).
  assert (Hguide :
            guide guidance_scale u x
            = inr (tmap2 r_add u (tmap (r_mul g) (tmap2 r_sub x u)))).
  { apply guide_scalar; try assumption; [|congruence].
    rewrite Hsu. rewrite Hshape in Hrank. exact Hrank. }
  split; [exact Hsplit|]. split; [exact Hdata|]. split; [exact Hlen|].
  split; [exact Hsu|]. split; [exact Hsx|]. split; [exact Hguide|].
  split; [exact Hsu|].
  split.
  { cbn [tmap2 tmap data]. rewrite length_zip_with, length_fmap,
      length_zip_with. lia. }
  split.
  { intros i a b Ha Hb. cbn [tmap2 tmap data].
    rewrite lookup_zip_with, Ha. cbn [mbind option_bind].
    rewrite list_lookup_fmap, lookup_zip_with, Hb. cbn [mbind option_bind].
    rewrite Ha. reflexivity. }
  unfold loop_body. rewrite Hcat, bind_lift_inr, Ht, bind_lift_inr.
  rewrite outcome_bind, Hnoise, Hsplit, bind_lift_inr, Hguide, bind_lift_inr.
  reflexivity.
Qed.

End Guidance.

(** One step on 8 x 8 latents with guidance scale 7.5. *)
Lemma loop_body_classifier_free_guidance_witness :
  exists guided,
    outcome (loop_body (H:=toy_models []) (toy_params []) unit_latents
               aligned_image single_scale single_scale 0
               (unit_latents, [40; 20; 0]))
    = inr (step (Scheduler:=toy_scheduler) [40; 20; 0] guided 40 unit_latents)
    /\ shape guided = [1; 4; 8; 8].
Proof.
  edestruct (loop_body_classifier_free_guidance (H:=toy_models [])
               (toy_params []) unit_latents aligned_image single_scale
               single_scale 0 unit_latents [40; 20; 0])
    as (u & x & guided & _ & _ & _ & _ & _ & _ & Hshape & _ & _ & Hrun).
  - reflexivity.
  - reflexivity.
  - reflexivity.
  - split; [repeat constructor; lia | vm_compute; reflexivity].
  - reflexivity.
  - reflexivity.
  - reflexivity.
  - repeat constructor.
  - vm_compute. lia.
  - exists guided. split; [exact Hrun | exact Hshape].
Defined.

(** ** custom_pipeline.py: the safety stage of __call__ *)

Lemma get0_slot {A} (x : tensor A) (n i : Z) (rest : list Z)
    (pre slot post : list A) :
  shape x = n :: rest -> data x = pre ++ slot ++ post ->
  0 <= i < n ->
  length pre = (Z.to_nat i * Z.to_nat (numel rest))%nat ->
  length slot = Z.to_nat (numel rest) ->
  get0 x i = inr (MkTensor rest slot).
Proof.
  intros Hs Hd Hi Hpre Hslot. unfold get0. rewrite Hs, Hd.
  rewrite decide_True by assumption.
  rewrite drop_app_length' by (symmetry; exact Hpre).
  rewrite take_app_length' by (symmetry; exact Hslot). reflexivity.
Qed.

Lemma broadcast_to_same {A} (v : tensor A) :
  broadcast_to (shape v) v = inr (data v).
Proof.
  unfold broadcast_to. rewrite Nat.sub_diag, drop_0, take_0.
  rewrite decide_True by reflexivity.
  change (Z.to_nat (numel [])) with 1%nat.
  cbn. rewrite app_nil_r. reflexivity.
Qed.

Lemma set0_slot {A B} (cast : B -> A) (x : tensor A) (n i : Z)
    (rest : list Z) (pre slot post : list A) (v : tensor B) (vs : list B) :
  shape x = n :: rest -> data x = pre ++ slot ++ post ->
  0 <= i < n ->
  length pre = (Z.to_nat i * Z.to_nat (numel rest))%nat ->
  length slot = Z.to_nat (numel rest) ->
  broadcast_to rest v = inr vs ->
  set0 cast x i v = inr (MkTensor (n :: rest) (pre ++ (cast <$> vs) ++ post)).
Proof.
  intros Hs Hd Hi Hpre Hslot Hv. unfold set0. rewrite Hs, Hd, Hv.
  rewrite decide_True by assumption.
  rewrite take_app_length' by (symmetry; exact Hpre).
  rewrite (app_assoc pre slot post).
  rewrite drop_app_length' by (rewrite length_app; lia).
  reflexivity.
Qed.

(** * Further properties of the code *)

(** ** More on the monad *)

Lemma bind_inr_inv {A B} (m : M A) (f : A -> M B) (b : B) :
  outcome (bind m f) = inr b ->
  exists a, outcome m = inr a /\ outcome (f a) = inr b
            /\ trace (bind m f) = trace m ++ trace (f a).
Proof.
  rewrite outcome_bind, trace_bind.
  destruct (outcome m) as [e|a]; [discriminate|]. eauto.
Qed.

Lemma lift_inr_inv {A} (r : exn + A) (a : A) :
  outcome (lift r) = inr a -> r = inr a.
Proof. intros Hr. exact Hr. Qed.

Lemma bind_MkM_inr {A B} (t : list event) (a : A) (f : A -> M B) :
  bind (MkM t (inr a)) f = MkM (t ++ trace (f a)) (outcome (f a)).
Proof. reflexivity. Qed.

Lemma bind_call {A B} (ev : event) (a : A) (f : A -> M B) :
  bind (call ev a) f = MkM (ev :: trace (f a)) (outcome (f a)).
Proof. reflexivity. Qed.

Lemma Forall_trace_bind {A B} (P : event -> Prop) (m : M A) (f : A -> M B) :
  Forall P (trace m) -> (forall a, Forall P (trace (f a))) ->
  Forall P (trace (bind m f)).
Proof.
  intros Hm Hf. rewrite trace_bind. apply Forall_app. split; [exact Hm|].
  destruct (outcome m); [constructor | apply Hf].
Qed.

Lemma Forall_trace_lift {A} (P : event -> Prop) (r : exn + A) :
  Forall P (trace (lift r)).
Proof. constructor. Qed.

(** ** utils.py: add_watermark on small images *)

Lemma resize_empty (img : pil_image) (w h : Z) (filter : pil_filter) :
  w < 1 \/ h < 1 ->
  resize img (w, h) filter = inl (LibraryError "height and width must be > 0").
Proof.
  intros Hor. unfold resize. cbn [fst snd].
  rewrite decide_False by lia. reflexivity.
Qed.

(** X1: with the default relative size, an image whose larger side is
    below 16 pixels gets a watermark size of 0, and the call fails in the
    resize of the watermark instead of returning an image. *)
Theorem add_watermark_tiny_image_fails `{R : Rounding} {F : Faithful R}
    (disk : gmap string file) (image : tensor Z) (watermark_path : string)
    (H W bands w_0 h_0 : Z) (md : pil_mode) (px : pil_pixels) :
  disk !! watermark_path = Some (Picture (MkImage (w_0, h_0) md px)) ->
  shape image = [H; W; bands] ->
  0 < w_0 -> 0 < h_0 -> 0 <= Z.max H W < 16 ->
  add_watermark disk image watermark_path default_wm_rel_size
    default_boundary
  = inl (LibraryError "height and width must be > 0").
Proof.
  intros Hdisk Hshape Hw Hh Hsmall.
  unfold add_watermark, Image_open. rewrite Hdisk, Hshape.
  rewrite wmsize_default by lia. rewrite Z.div_small by lia.
  unfold scale_watermark. cbn [size].
  rewrite decide_False by lia.
  destruct (Qlt_bool 1 _).
  - rewrite resize_empty by lia. reflexivity.
  - destruct (Qeq_bool (int_div h_0 w_0) 0) eqn:Hz.
    + exfalso. apply Qeq_bool_iff in Hz.
      pose proof (aspect_positive w_0 h_0 Hw Hh) as Hpos.
      rewrite Hz in Hpos. discriminate.
    + rewrite resize_empty by lia. reflexivity.
Qed.

Lemma add_watermark_tiny_image_fails_witness :
  add_watermark (R:=binary64) wide_watermark_disk thumbnail "logo.png"
    (default_wm_rel_size (R:=binary64)) default_boundary
  = inl (LibraryError "height and width must be > 0").
Proof.
  apply (add_watermark_tiny_image_fails (R:=binary64) (F:=binary64_faithful)
           wide_watermark_disk thumbnail "logo.png" 8 12 3 200 100 RGBA
           (FromFile "logo.png")).
  - reflexivity.
  - reflexivity.
  - lia.
  - lia.
  - lia.
Defined.
(** ** utils.py: the frames and the size prepare_video chooses *)

Lemma np_round_near (n : Z) (d : positive) :
  - Z.pos d <= 2 * (np_round (n # d) * Z.pos d - n) <= Z.pos d.
Proof.
  unfold np_round, nearest_even, py_floor. cbn [Qnum Qden].
  set (f := n / Z.pos d).
  pose proof (Z.div_mod n (Z.pos d) ltac:(lia)) as Hdm.
  pose proof (Z.mod_pos_bound n (Z.pos d) ltac:(lia)) as Hm.
  fold f in Hdm.
  unfold Qlt_bool, Qle_bool, Qminus, Qplus, Qopp, inject_Z.
  cbn [Qnum Qden].
  repeat match goal with
         | |- context [negb (?a <=? ?b)] =>
             destruct (Z.leb_spec a b); cbn [negb]
         end;
    try (destruct (Z.even f)); lia.
Qed.

(** The resized longer side without rounding of the arithmetic. *)
Lemma resized_side_exact (p : positive) (resolution : Z) :
  - 32
  <= np_round (f_div (R:=exact)
                 (f_mul (R:=exact) (float_of_int (R:=exact) (Z.pos p))
                    (f_div (R:=exact) (float_of_int (R:=exact) resolution)
                       (float_of_int (R:=exact) (Z.pos p)))) 64) * 64
     - resolution
  <= 32.
Proof.
  unfold f_div, f_mul, float_of_int, fl, exact.
  unfold Qdiv, Qmult, Qinv, inject_Z. cbn [Qnum Qden].
  match goal with |- context [np_round (?n # ?d)] =>
    pose proof (np_round_near n d) as Hn;
    set (r := np_round (n # d)) in *
  end. nia.
Qed.

Section ResizedSide.
Context `{R : Rounding} {F : Faithful R}.

(** The same in floats: three roundings move the quotient by less than a
    64th for a [resolution] below [2 ^ 50]. *)
Lemma resized_side_near (p resolution : Z) :
  0 < p < 2 ^ 53 -> 0 <= resolution < 2 ^ 50 ->
  - 32
  <= np_round (f_div (f_mul (float_of_int p)
                        (f_div (float_of_int resolution) (float_of_int p)))
                 64) * 64
     - resolution
  <= 32.
Proof.
  intros Hp Hres.
  pose proof (float_of_int_exact p ltac:(lia)) as Hfp.
  pose proof (float_of_int_exact resolution ltac:(lia)) as Hfr.
  assert (HP : (0 < inject_Z p)%Q) by (rewrite <- (Zlt_Qlt 0); lia).
  assert (HR0 : (0 <= inject_Z resolution)%Q)
    by (rewrite <- (Zle_Qle 0); lia).
  assert (HR1 : (inject_Z resolution < inject_Z (2 ^ 50))%Q)
    by (rewrite <- Zlt_Qlt; lia).
  change (inject_Z (2 ^ 50)) with (1125899906842624 # 1)%Q in HR1.
  assert (Hx0 : (0 <= float_of_int resolution / float_of_int p)%Q).
  { rewrite Hfr, Hfp. apply Qle_shift_div_l; [exact HP | lra]. }
  destruct (fl_error _ Hx0) as [Hk1 Hk2].
  fold (f_div (float_of_int resolution) (float_of_int p)) in Hk1, Hk2.
  set (k := f_div (float_of_int resolution) (float_of_int p)) in *.
  set (x := (float_of_int resolution / float_of_int p)%Q) in *.
  assert (HxP : (x * inject_Z p == inject_Z resolution)%Q).
  { unfold x. rewrite Hfr, Hfp. field. lra. }
  assert (Hk0 : (0 <= k)%Q) by (apply fl_nonneg; exact Hx0).
  assert (Hy0 : (0 <= float_of_int p * k)%Q).
  { apply Qmult_le_0_compat; [rewrite Hfp; lra | exact Hk0]. }
  assert (Hy1 : (inject_Z resolution - inject_Z resolution * 2 ^ (-52)
                 <= float_of_int p * k)%Q).
  { rewrite Hfp, <- HxP.
    apply Qle_trans with ((x - x * 2 ^ (-52)) * inject_Z p)%Q.
    - ring_simplify. apply Qle_refl.
    - rewrite (Qmult_comm (inject_Z p)).
      apply Qmult_le_compat_r; [exact Hk1 | lra]. }
  assert (Hy2 : (float_of_int p * k
                 <= inject_Z resolution + inject_Z resolution * 2 ^ (-52))%Q).
  { rewrite Hfp, <- HxP.
    apply Qle_trans with ((x + x * 2 ^ (-52)) * inject_Z p)%Q.
    - rewrite (Qmult_comm (inject_Z p)).
      apply Qmult_le_compat_r; [exact Hk2 | lra].
    - ring_simplify. apply Qle_refl. }
  destruct (fl_error _ Hy0) as [Hs1 Hs2].
  fold (f_mul (float_of_int p) k) in Hs1, Hs2.
  set (y := (float_of_int p * k)%Q) in *.
  set (s := f_mul (float_of_int p) k) in *.
  assert (Hs0 : (0 <= s)%Q) by (apply fl_nonneg; exact Hy0).
  assert (Hz : (s / 64 == s * (1 # 64))%Q) by (field; discriminate).
  assert (Hz0 : (0 <= s / 64)%Q) by (rewrite Hz; lra).
  destruct (fl_error _ Hz0) as [Hq1 Hq2].
  fold (f_div s 64) in Hq1, Hq2.
  set (q := f_div s 64) in *.
  rewrite Hz in Hq1, Hq2.
  destruct (nearest_even_near q) as [Hr1 Hr2].
  unfold np_round. set (r := nearest_even q) in *.
  change (2 ^ (-52))%Q with (1 # 4503599627370496)%Q in *.
  assert (Hlow : (inject_Z (-33) < inject_Z (r * 64 - resolution))%Q).
  { unfold Z.sub. rewrite inject_Z_plus, inject_Z_mult, inject_Z_opp.
    change (inject_Z (-33)) with (-33 # 1)%Q.
    change (inject_Z 64) with (64 # 1)%Q. lra. }
  assert (Hhigh : (inject_Z (r * 64 - resolution) < inject_Z 33)%Q).
  { unfold Z.sub. rewrite inject_Z_plus, inject_Z_mult, inject_Z_opp.
    change (inject_Z 33) with (33 # 1)%Q.
    change (inject_Z 64) with (64 # 1)%Q. lra. }
  rewrite <- Zlt_Qlt in Hlow, Hhigh. lia.
Qed.

End ResizedSide.

(** X3: the sampled frame indices never go backwards: a later position
    of the batch holds the same frame or a later one. *)
Theorem prepare_video_indices_sorted `{R : Rounding} {F : Faithful R}
    {Dev Dt : Type}
    (videos : gmap string video_reader) (video_path : string)
    (resolution : Z) (device : Dev) (dtype : Dt) (normalize : bool)
    (start_t end_t : Q) (output_fps : Z) (v : video) (fps : Z)
    (vr : video_reader) (i j : nat) (a b : Z) :
  prepare_video videos video_path resolution device dtype normalize start_t
    end_t output_fps = inr (v, fps) ->
  videos !! video_path = Some vr ->
  (0 < vr_avg_fps vr)%Q ->
  (i <= j)%nat ->
  frames_of v !! i = Some a -> frames_of v !! j = Some b ->
  a <= b.
Proof.
  intros Hrun Hvr Hfps Hij Ha Hb.
  destruct (prepare_video_inr _ _ _ _ _ _ _ _ _ _ _ Hrun)
    as (vr' & Hvr' & _ & H0 & Hlt & _ & _ & _ & Hframes & _).
  rewrite Hvr in Hvr'. injection Hvr' as <-.
  set (stop := resolve_end_t (vr_len vr) (vr_avg_fps vr) end_t) in *.
  pose proof (frame_of_time_mono (vr_avg_fps vr) start_t stop Hfps H0
                ltac:(apply Qlt_le_weak; exact Hlt)) as Hfl.
  rewrite Hframes in Ha, Hb.
  apply lookup_linspace in Ha as [Hi ->].
  apply lookup_linspace in Hb as [Hj ->].
  apply entry_mono; lia.
Qed.

(** X4: the height and the width [prepare_video] resizes to are multiples
    of 64, and the one of the longer side of the source is within 32 pixels
    of the requested [resolution]: in floats for a [resolution] below
    [2 ^ 50] and sides below [2 ^ 53], and for every [resolution] where
    the arithmetic does not round. *)
Theorem prepare_video_output_size `{R : Rounding} {F : Faithful R}
    {Dev Dt : Type}
    (videos : gmap string video_reader) (video_path : string)
    (resolution : Z) (device : Dev) (dtype : Dt) (normalize : bool)
    (start_t end_t : Q) (output_fps : Z) (vr : video_reader) :
  videos !! video_path = Some vr ->
  (forall v fps,
     prepare_video videos video_path resolution device dtype normalize
       start_t end_t output_fps = inr (v, fps) ->
     (height_of v mod 64 = 0 /\ width_of v mod 64 = 0)
     /\ (0 <= resolution < 2 ^ 50 ->
         0 <= vr_height vr < 2 ^ 53 -> 0 <= vr_width vr < 2 ^ 53 ->
         (vr_width vr <= vr_height vr ->
          - 32 <= height_of v - resolution <= 32)
         /\ (vr_height vr <= vr_width vr ->
             - 32 <= width_of v - resolution <= 32)))
  /\ (forall v fps,
        prepare_video (R:=exact) videos video_path resolution device dtype
          normalize start_t end_t output_fps = inr (v, fps) ->
        (height_of v mod 64 = 0 /\ width_of v mod 64 = 0)
        /\ (0 <= vr_height vr -> 0 <= vr_width vr ->
            (vr_width vr <= vr_height vr ->
             - 32 <= height_of v - resolution <= 32)
            /\ (vr_height vr <= vr_width vr ->
                - 32 <= width_of v - resolution <= 32))).
Proof.
  intros Hvr. split.
  - intros v fps Hrun.
    destruct (prepare_video_inr _ _ _ _ _ _ _ _ _ _ _ Hrun)
      as (vr' & Hvr' & _ & _ & _ & _ & _ & Hmax & _ & _ & Hhv & Hwv & _).
    rewrite Hvr in Hvr'. injection Hvr' as <-.
    split.
    { rewrite Hhv, Hwv. split; apply Z.mod_mul; lia. }
    intros Hres Hh Hw. split; intros Hle.
    + rewrite Hhv. rewrite Z.max_l in * by lia.
      apply resized_side_near; lia.
    + rewrite Hwv. rewrite Z.max_r in * by lia.
      apply resized_side_near; lia.
  - intros v fps Hrun.
    destruct (prepare_video_inr _ _ _ _ _ _ _ _ _ _ _ Hrun)
      as (vr' & Hvr' & _ & _ & _ & _ & _ & Hmax & _ & _ & Hhv & Hwv & _).
    rewrite Hvr in Hvr'. injection Hvr' as <-.
    split.
    { rewrite Hhv, Hwv. split; apply Z.mod_mul; lia. }
    intros Hh Hw. split; intros Hle.
    + rewrite Hhv. rewrite Z.max_l in * by lia.
      destruct (vr_height vr) as [|p|p]; try lia.
      apply resized_side_exact.
    + rewrite Hwv. rewrite Z.max_r in * by lia.
      destruct (vr_width vr) as [|p|p]; try lia.
      apply resized_side_exact.
Qed.

Lemma prepare_video_indices_sorted_witness :
  exists v a b,
    prepare_video (R:=binary64) ntsc_clip "clip.mp4" 512 tt tt true 0 (-1)
      (-1) = inr (v, 29)
    /\ frames_of v !! 7%nat = Some a /\ frames_of v !! 200%nat = Some b
    /\ a <= b.
Proof.
  eexists _, _, _. split; [|split; [|split]].
  - vm_compute. reflexivity.
  - vm_compute. reflexivity.
  - vm_compute. reflexivity.
  - eapply (prepare_video_indices_sorted (R:=binary64)
             (F:=binary64_faithful) ntsc_clip "clip.mp4" 512 tt tt
             true 0 (-1) (-1) _ 29 ntsc_reader 7%nat 200%nat).
    + vm_compute. reflexivity.
    + reflexivity.
    + reflexivity.
    + lia.
    + vm_compute. reflexivity.
    + vm_compute. reflexivity.
Defined.

Lemma prepare_video_output_size_witness :
  exists v,
    prepare_video (R:=binary64) ntsc_clip "clip.mp4" 512 tt tt true 0 (-1)
      (-1) = inr (v, 29)
    /\ height_of v mod 64 = 0 /\ width_of v mod 64 = 0
    /\ - 32 <= width_of v - 512 <= 32.
Proof.
  eexists. split; [vm_compute; reflexivity|].
  destruct (prepare_video_output_size (R:=binary64) (F:=binary64_faithful)
              ntsc_clip "clip.mp4" 512 tt tt true 0 (-1) (-1) ntsc_reader
              eq_refl)
    as [Hfloat _].
  destruct (Hfloat _ 29 ltac:(vm_compute; reflexivity)) as [[Hh Hw] Hnear].
  destruct Hnear as [_ Hwide]; [cbn; lia | cbn; lia | cbn; lia |].
  split; [exact Hh|]. split; [exact Hw|].
  apply Hwide. cbn. lia.
Defined.
(** ** custom_pipeline.py: prepare_image_inputs *)

Lemma comprehension_Forall2 {X Y} (f : X -> exn + Y) (xs : list X)
    (ys : list Y) :
  Forall2 (fun x y => f x = inr y) xs ys -> comprehension f xs = inr ys.
Proof.
  induction 1 as [|x y xs ys Hx _ IH]; [reflexivity|].
  cbn [comprehension]. rewrite Hx, IH. reflexivity.
Qed.

Lemma concatenate_onto_rows {A} (rest : list Z) (arrays : list (tensor A)) :
  Forall (fun arr => shape arr = 1 :: rest) arrays ->
  forall (n : Z) (acc : list A),
    concatenate_onto (MkTensor (n :: rest) acc) arrays
    = inr (MkTensor (n + Z.of_nat (length arrays) :: rest)
             (acc ++ mjoin (data <$> arrays))).
Proof.
  induction 1 as [|arr arrays Harr _ IH]; intros n acc.
  - cbn. rewrite Z.add_0_r, app_nil_r. reflexivity.
  - cbn [concatenate_onto]. unfold concatenate. cbn [shape data].
    rewrite Harr, decide_True by reflexivity.
    rewrite IH. cbn [fmap list_fmap length].
    change (mjoin (data arr :: (data <$> arrays)))
      with (data arr ++ mjoin (data <$> arrays)).
    rewrite <- app_assoc. do 3 f_equal. lia.
Qed.

Section ImageInputs.
Context `{Models}.

Variable preprocess : image_arg -> exn + tensor float.

(** X5: when every item of a non-empty list is turned by the helper
    [preprocess] into a batch of one image of the same size,
    [prepare_image_inputs] returns one batch with as many images as the
    list has items, in the order of the list; a single image that is not in
    a list gives the batch of one. *)
Theorem prepare_image_inputs_stacks_batch (items : list image_arg)
    (arrays : list (tensor float)) (rest : list Z) :
  items <> [] ->
  Forall2 (fun item arr => preprocess item = inr arr
                           /\ shape arr = 1 :: rest) items arrays ->
  prepare_image_inputs preprocess (AList items)
  = inr (MkTensor (Z.of_nat (length items) :: rest)
           (mjoin (data <$> arrays)))
  /\ forall img,
       items = [AnImage img] ->
       prepare_image_inputs preprocess (AnImage img)
       = inr (MkTensor (1 :: rest) (mjoin (data <$> arrays))).
Proof.
  intros Hne Hall.
  assert (Hlist :
            prepare_image_inputs preprocess (AList items)
            = inr (MkTensor (Z.of_nat (length items) :: rest)
                     (mjoin (data <$> arrays)))).
  { unfold prepare_image_inputs.
    rewrite (comprehension_Forall2 preprocess items arrays)
      by (eapply Forall2_impl; [exact Hall | intros ? ? []; assumption]).
    assert (Hshapes : Forall (fun arr => shape arr = 1 :: rest) arrays).
    { clear Hne. induction Hall as [|? ? ? ? [_ ?] _ IH]; constructor;
        assumption. }
    rewrite (Forall2_length _ _ _ Hall).
    destruct Hshapes as [|[sh dt] arrays Harr Hrest].
    { apply Forall2_nil_inv_r in Hall. contradiction. }
    cbn [shape] in Harr. subst sh.
    cbn [concatenate_all shape].
    rewrite concatenate_onto_rows by exact Hrest.
    cbn [fmap list_fmap length data].
    change (mjoin (dt :: (data <$> arrays)))
      with (dt ++ mjoin (data <$> arrays)).
    do 3 f_equal. lia. }
  split; [exact Hlist|].
  intros img ->. exact Hlist.
Qed.

End ImageInputs.


Lemma prepare_image_inputs_stacks_batch_witness :
  prepare_image_inputs (H:=toy_models []) grey_preprocess
    (AList [AnImage small_picture; AnImage small_picture])
  = inr (full [2; 3; 4; 4] (1 # 2)%Q).
Proof.
  destruct (prepare_image_inputs_stacks_batch (H:=toy_models [])
              grey_preprocess
              [AnImage small_picture; AnImage small_picture]
              [full [1; 3; 4; 4] (1 # 2)%Q; full [1; 3; 4; 4] (1 # 2)%Q]
              [3; 4; 4])
    as [Hrun _].
  - discriminate.
  - repeat constructor.
  - exact Hrun.
Defined.

(** ** custom_pipeline.py: the unconditional input of _generate *)

Section Unconditional.
Context `{Models}.

Lemma encode_untruncated (max_length : Z) (text : string) :
  Z.of_nat (length (bpe text)) + 2 <= max_length ->
  encode max_length false text
  = bos_token_id :: bpe text ++ [eos_token_id]
    ++ replicate (Z.to_nat max_length - length (bpe text) - 2) pad_token_id
  /\ length (encode max_length false text) = Z.to_nat max_length.
Proof.
  intros Hle. unfold encode. cbn [app length].
  rewrite !length_app, length_replicate. cbn [length].
  split; [|lia].
  rewrite <- app_assoc. do 4 f_equal. lia.
Qed.

(** X6: without negative prompt ids, [_generate] conditions the
    unconditional half on the tokenizer's rows for the empty prompt:
    begin marker, end marker and padding, one row per prompt and of the
    length of the prompt rows, so that the two embeddings that are
    concatenated come from inputs of the same shape.  The text encoder
    runs twice and the tokenizer once in between. *)
Theorem text_context_unconditional_input (prompt_ids : tensor Z)
    (params : Params) (batch_size max_length : Z) :
  shape prompt_ids = [batch_size; max_length] ->
  0 < batch_size ->
  Z.of_nat (length (bpe "")) + 2 <= max_length ->
  let row :=
    bos_token_id :: bpe "" ++ [eos_token_id]
    ++ replicate (Z.to_nat max_length - length (bpe "") - 2) pad_token_id in
  let uncond_input :=
    MkTensor [batch_size; max_length]
      (concat (replicate (Z.to_nat batch_size) row)) in
  text_context prompt_ids params None
  = let* context :=
      MkM [EvTextEncoder; EvTokenizer; EvTextEncoder]
        (concatenate
           (shard (text_encoder (p_text_encoder params) uncond_input))
           (shard (text_encoder (p_text_encoder params) prompt_ids))) in
    ret (batch_size, context).
Proof.
  intros Hshape Hb Hlen row uncond_input.
  destruct (encode_untruncated max_length "" Hlen) as [Hrow Hrowlen].
  fold row in Hrow.
  unfold text_context. rewrite Hshape.
  unfold shape_first, shape_last. cbn [reverse rev_append].
  rewrite bind_call, !bind_lift_inr.
  assert (Hsome : replicate (Z.to_nat batch_size) "" <> [])
    by (destruct (Z.to_nat batch_size) eqn:E; [lia|discriminate]).
  rewrite <- (fmap_replicate PyStr), (tokenizer_call_texts _ _ _ Hsome).
  rewrite fmap_replicate, Hrow.
  rewrite (np_array_rows _ (Z.to_nat max_length)).
  - rewrite length_replicate, !Z2Nat.id by lia.
    unfold bind, call, lift, ret. cbn [outcome trace app].
    fold uncond_input.
    destruct (concatenate _ _); reflexivity.
  - destruct (Z.to_nat batch_size) eqn:E; [lia|]. discriminate.
  - apply Forall_replicate. rewrite <- Hrow. exact Hrowlen.
Qed.

End Unconditional.

Lemma text_context_unconditional_input_witness :
  outcome (text_context (H:=toy_models []) one_prompt (toy_params []) None)
  = inr (1,
         MkTensor [2; 77]
           (inject_Z
              <$> (49406 :: replicate 76 49407) ++ replicate 77 1)).
Proof.
  rewrite (text_context_unconditional_input (H:=toy_models []) one_prompt
             (toy_params []) 1 77).
  - vm_compute. reflexivity.
  - reflexivity.
  - lia.
  - cbn. lia.
Defined.

(** ** custom_pipeline.py: the calls of a generation *)

Section Rounds.
Context {S : Type} (body : Z -> S -> M S) (round : list event).

Hypothesis Hround :
  forall i s r, outcome (body i s) = inr r -> trace (body i s) = round.

Lemma fori_loop_from_rounds (count : nat) (i : Z) (s r : S) :
  outcome (fori_loop_from count i body s) = inr r ->
  trace (fori_loop_from count i body s) = mjoin (replicate count round).
Proof.
  revert i s. induction count as [|count IH]; intros i s Hr; [reflexivity|].
  cbn [fori_loop_from] in *.
  apply bind_inr_inv in Hr as (s' & Hs' & Hrest & ->).
  rewrite (Hround _ _ _ Hs'), (IH _ _ Hrest). reflexivity.
Qed.
End Rounds.

Section Denoise.
Context `{Models}.

Variables (params : Params) (context image : tensor float)
  (guidance_scale controlnet_conditioning_scale : tensor float).

Lemma loop_body_round (step_index : Z)
    (args r : tensor float * SchedulerState) :
  outcome (loop_body params context image guidance_scale
             controlnet_conditioning_scale step_index args) = inr r ->
  trace (loop_body params context image guidance_scale
           controlnet_conditioning_scale step_index args)
  = [EvScaleModelInput; EvControlNet; EvUNet; EvSchedulerStep].
Proof.
  destruct args as [latents st]. unfold loop_body. intros Hr.
  apply bind_inr_inv in Hr as (li & Hli & Hr & ->).
  apply lift_inr_inv in Hli. rewrite Hli. cbn [lift trace app].
  apply bind_inr_inv in Hr as (t & Ht & Hr & ->).
  apply lift_inr_inv in Ht. rewrite Ht. cbn [lift trace app].
  apply bind_inr_inv in Hr as (noise & Hnoise & Hr & ->).
  assert (Hpn : trace (predict_noise params context image
                         controlnet_conditioning_scale st li t)
                = [EvScaleModelInput; EvControlNet; EvUNet]).
  { unfold predict_noise in *.
    apply bind_inr_inv in Hnoise as (b & Hb & _ & ->).
    apply lift_inr_inv in Hb. rewrite Hb. cbn [lift trace app].
    rewrite !trace_bind. cbn [call trace outcome app].
    destruct (controlnet_apply _ _ _ _ _ _). reflexivity. }
  rewrite Hpn.
  apply bind_inr_inv in Hr as (halves & Hh & Hr & ->).
  apply lift_inr_inv in Hh. rewrite Hh. cbn [lift trace app].
  destruct halves as [u x].
  apply bind_inr_inv in Hr as (g & Hg & Hr & ->).
  apply lift_inr_inv in Hg. rewrite Hg. reflexivity.
Qed.

Lemma denoise_rounds (debug : bool) (num_inference_steps : Z)
    (latents result : tensor float) (scheduler_state : SchedulerState) :
  outcome (denoise debug num_inference_steps
             (loop_body params context image guidance_scale
                controlnet_conditioning_scale)
             latents scheduler_state) = inr result ->
  trace (denoise debug num_inference_steps
           (loop_body params context image guidance_scale
              controlnet_conditioning_scale)
           latents scheduler_state)
  = mjoin (replicate (Z.to_nat num_inference_steps)
             [EvScaleModelInput; EvControlNet; EvUNet; EvSchedulerStep]).
Proof.
  intros Hr.
  assert (Hsame : denoise debug num_inference_steps
                    (loop_body params context image guidance_scale
                       controlnet_conditioning_scale)
                    latents scheduler_state
                  = denoise true num_inference_steps
                      (loop_body params context image guidance_scale
                         controlnet_conditioning_scale)
                      latents scheduler_state).
  { destruct debug; [reflexivity|]. unfold denoise in *.
    apply bind_inr_inv in Hr as ([l st] & Hloop & _ & _).
    rewrite (fori_loop_returns _ _ _ _ _ Hloop). reflexivity. }
  rewrite Hsame in *. unfold denoise in *.
  apply bind_inr_inv in Hr as ([l st] & Hloop & _ & ->).
  rewrite for_range_fori_loop_from in *.
  rewrite (fori_loop_from_rounds _ _ loop_body_round _ _ _ _ Hloop).
  cbn [ret trace]. apply app_nil_r.
Qed.

End Denoise.

Section GenerateTrace.
Context `{Models}.

Lemma tokenizer_call_setup (prompt : pyval) (max_length : Z)
    (truncation : bool) :
  Forall setup_call (trace (tokenizer_call prompt max_length truncation)).
Proof.
  unfold tokenizer_call.
  destruct prompt; try constructor.
  - apply Forall_trace_bind; [apply Forall_trace_lift|].
    intros a. apply Forall_cons_2; [unfold setup_call; tauto | apply Forall_nil_2].
  - destruct l as [|v l]; [constructor|].
    destruct (mapM as_str (v :: l)).
    + apply Forall_trace_bind; [apply Forall_trace_lift|].
      intros a.
      apply Forall_cons_2; [unfold setup_call; tauto | apply Forall_nil_2].
    + apply Forall_trace_bind; [apply Forall_trace_lift|].
      intros rows. apply Forall_trace_bind; [apply Forall_trace_lift|].
      intros a.
      apply Forall_cons_2; [unfold setup_call; tauto | apply Forall_nil_2].
Qed.

Lemma text_context_setup (prompt_ids : tensor Z) (params : Params)
    (neg_prompt_ids : option (tensor Z)) :
  Forall setup_call (trace (text_context prompt_ids params neg_prompt_ids)).
Proof.
  unfold text_context.
  apply Forall_trace_bind; [apply Forall_cons_2; [unfold setup_call; tauto | apply Forall_nil_2]|].
  intros e1. apply Forall_trace_bind; [apply Forall_trace_lift|].
  intros b. apply Forall_trace_bind; [apply Forall_trace_lift|].
  intros m. apply Forall_trace_bind.
  { destruct neg_prompt_ids; [constructor | apply tokenizer_call_setup]. }
  intros u. apply Forall_trace_bind; [apply Forall_cons_2; [unfold setup_call; tauto | apply Forall_nil_2]|].
  intros e2. apply Forall_trace_bind; [apply Forall_trace_lift|].
  intros c. constructor.
Qed.

Lemma initial_latents_setup (prng_seed : PRNGKey) (expected : list Z)
    (latents : option (tensor float)) :
  Forall setup_call (trace (initial_latents prng_seed expected latents)).
Proof.
  unfold initial_latents. destruct latents as [l|].
  - destruct (decide _); constructor.
  - apply Forall_cons_2; [unfold setup_call; tauto | apply Forall_nil_2].
Qed.

(** X7: a generation that returns has called, for each of the
    [num_inference_steps] steps and in this order, the scheduler's input
    scaling, the ControlNet, the UNet and the scheduler's step, and after
    the last step the VAE decoder, once; whatever is called before the
    first step is the text encoder, the tokenizer, the random generator or
    the scheduler's set-up.  This holds for both loop strategies. *)
Theorem generate_calls_per_step (debug : bool) (prompt_ids : tensor Z)
    (image : tensor float) (params : Params) (prng_seed : PRNGKey)
    (num_inference_steps : Z) (guidance_scale : tensor float)
    (latents : option (tensor float)) (neg_prompt_ids : option (tensor Z))
    (controlnet_conditioning_scale result : tensor float) :
  outcome (_generate_with debug prompt_ids image params prng_seed
             num_inference_steps guidance_scale latents neg_prompt_ids
             controlnet_conditioning_scale) = inr result ->
  exists before,
    trace (_generate_with debug prompt_ids image params prng_seed
             num_inference_steps guidance_scale latents neg_prompt_ids
             controlnet_conditioning_scale)
    = before
      ++ mjoin (replicate (Z.to_nat num_inference_steps)
                  [EvScaleModelInput; EvControlNet; EvUNet; EvSchedulerStep])
      ++ [EvVaeDecode]
    /\ Forall setup_call before.
Proof.
  unfold _generate_with. intros Hr.
  apply bind_inr_inv in Hr as ([height width] & Hhw & Hr & ->).
  apply lift_inr_inv in Hhw. rewrite Hhw in *. cbn [lift trace app].
  destruct (decide (height mod 64 <> 0 \/ width mod 64 <> 0));
    [discriminate|].
  apply bind_inr_inv in Hr as ([batch_size context] & Hctx & Hr & ->).
  apply bind_inr_inv in Hr as (image2 & Himage & Hr & ->).
  apply bind_inr_inv in Hr as (latents0 & Hlat & Hr & ->).
  apply bind_inr_inv in Hr as (st & Hst & Hr & ->).
  apply bind_inr_inv in Hr as (denoised & Hden & Hr & ->).
  apply bind_inr_inv in Hr as (decoded & Hdec & Hr & ->).
  rewrite (denoise_rounds _ _ _ _ _ _ _ _ _ _ Hden).
  exists (trace (text_context prompt_ids params neg_prompt_ids)
          ++ trace (initial_latents prng_seed
                      (latents_shape batch_size height width) latents)
          ++ [EvSetTimesteps]).
  split.
  - cbn [call lift trace]. rewrite app_nil_r, <- !app_assoc. reflexivity.
  - apply Forall_app_2; [|apply Forall_app_2].
    + apply text_context_setup.
    + apply initial_latents_setup.
    + apply Forall_cons_2; [unfold setup_call; tauto | apply Forall_nil_2].
Qed.

End GenerateTrace.

Lemma generate_calls_per_step_witness :
  exists before,
    trace (_generate_with (H:=toy_models []) true one_prompt aligned_image
             (toy_params []) 7 3 single_scale (Some unit_latents) None
             single_scale)
    = before
      ++ mjoin (replicate 3
                  [EvScaleModelInput; EvControlNet; EvUNet; EvSchedulerStep])
      ++ [EvVaeDecode]
    /\ before = [EvTextEncoder; EvTokenizer; EvTextEncoder; EvSetTimesteps].
Proof.
  edestruct (generate_calls_per_step (H:=toy_models []) true one_prompt
               aligned_image (toy_params []) 7 3 single_scale
               (Some unit_latents) None single_scale)
    as (before & Htrace & _).
  - vm_compute. reflexivity.
  - exists [EvTextEncoder; EvTokenizer; EvTextEncoder; EvSetTimesteps].
    split; [vm_compute; reflexivity | reflexivity].
Defined.

(** ** custom_pipeline.py: a float guidance scale and several prompts *)

Lemma broadcast_shapes_same (s : list Z) : broadcast_shapes s s = Some s.
Proof.
  unfold broadcast_shapes. rewrite broadcast_rev_same.
  cbn [fmap option_fmap option_map]. rewrite reverse_involutive. reflexivity.
Qed.

Lemma broadcast_shapes_vector (n b c h w : Z) :
  n <> w -> n <> 1 -> w <> 1 -> broadcast_shapes [n] [b; c; h; w] = None.
Proof.
  intros Hnw Hn Hw. unfold broadcast_shapes.
  cbn [reverse rev_append broadcast_rev].
  rewrite !decide_False by assumption. reflexivity.
Qed.

Section FloatScale.
Context `{Models}.

(** X8: for prompt ids that are not sharded, [__call__] turns a float
    guidance scale into a vector with one copy per prompt.  With two or
    more prompts the first denoising step then fails: the vector is
    aligned with the last axis of the prediction, the width of the
    latents, not with its batch axis, and the two do not broadcast (unless
    the width happens to equal the number of prompts). *)
Theorem float_guidance_needs_one_prompt
    (params : Params) (context image : tensor float)
    (controlnet_conditioning_scale : tensor float) (step_index : Z)
    (latents : tensor float) (scheduler_state : SchedulerState)
    (latents_input noise_pred : tensor float) (t : Z)
    (prompt_ids : tensor Z) (g : float)
    (batch_size max_length channels height width : Z) :
  shape prompt_ids = [batch_size; max_length] ->
  2 <= batch_size ->
  concatenate_twice latents = inr latents_input ->
  jnp_index (timesteps scheduler_state) step_index = inr t ->
  outcome (predict_noise params context image controlnet_conditioning_scale
             scheduler_state latents_input t) = inr noise_pred ->
  shape noise_pred = [2 * batch_size; channels; height; width] ->
  width <> 1 -> width <> batch_size ->
  exists guidance_scale,
    per_device prompt_ids (inl g) = inr guidance_scale
    /\ shape guidance_scale = [batch_size]
    /\ outcome (loop_body params context image guidance_scale
                  controlnet_conditioning_scale step_index
                  (latents, scheduler_state))
       = inl (LibraryError "operands could not be broadcast together").
Proof.
  intros Hids Hb Hcat Ht Hnoise Hshape Hw1 Hwb.
  unfold per_device. rewrite Hids. cbn [shape_first length].
  rewrite decide_False by lia.
  eexists. split; [reflexivity|].
  rewrite length_replicate, Z2Nat.id by lia.
  split; [reflexivity|].
  unfold loop_body. rewrite Hcat, bind_lift_inr, Ht, bind_lift_inr.
  rewrite outcome_bind, Hnoise.
  unfold split2. rewrite Hshape.
  rewrite decide_True by (rewrite Z.mul_comm; apply Z.mod_mul; lia).
  rewrite bind_lift_inr.
  replace (2 * batch_size / 2) with batch_size
    by (rewrite Z.mul_comm, Z.div_mul; lia).
  unfold guide, broadcast2 at 1. cbn [shape].
  rewrite broadcast_shapes_same.
  unfold broadcast2 at 1. cbn [shape].
  rewrite broadcast_shapes_vector by lia.
  reflexivity.
Qed.

End FloatScale.

Lemma float_guidance_needs_one_prompt_witness :
  exists guidance_scale,
    per_device (H:=toy_models []) two_prompts (inl (15 # 2)%Q)
    = inr guidance_scale
    /\ outcome (loop_body (H:=toy_models []) (toy_params []) pair_latents
                  aligned_image guidance_scale single_scale 0
                  (pair_latents, [40; 20; 0]))
       = inl (LibraryError "operands could not be broadcast together").
Proof.
  edestruct (float_guidance_needs_one_prompt (H:=toy_models [])
               (toy_params []) pair_latents aligned_image single_scale 0
               pair_latents [40; 20; 0] (full [4; 4; 8; 8] 1%Q)
               (full [4; 4; 8; 8] 1%Q) 40 two_prompts (15 # 2)%Q 2 77 4 8 8)
    as (guidance_scale & Hg & _ & Hfail).
  - reflexivity.
  - lia.
  - vm_compute. reflexivity.
  - reflexivity.
  - vm_compute. reflexivity.
  - reflexivity.
  - lia.
  - lia.
  - exists guidance_scale. split; [exact Hg | exact Hfail].
Defined.

(** ** custom_pipeline.py: what the safety checker does to the images *)

Lemma for_each_ext {X S} (xs : list X) (f g : X -> S -> M S) (s : S) :
  (forall x s', f x s' = g x s') -> for_each xs f s = for_each xs g s.
Proof.
  intros Hfg. revert s. induction xs as [|x xs IH]; intros s; [reflexivity|].
  cbn [for_each]. rewrite Hfg. apply bind_ext. exact IH.
Qed.

Lemma blacken_unfold (flags : list bool) (images : tensor Z) :
  blacken flags images
  = for_each (enumerate flags) (blacken_body flags) images.
Proof. unfold blacken. apply for_each_ext. intros [idx f] s. reflexivity. Qed.

Lemma length_mjoin_uniform {A} (sz : nat) (ls : list (list A)) :
  Forall (fun s => length s = sz) ls ->
  length (mjoin ls) = (length ls * sz)%nat.
Proof.
  induction 1 as [|s ls Hs _ IH]; [reflexivity|].
  change (mjoin (s :: ls)) with (s ++ mjoin ls).
  rewrite length_app, IH, Hs. reflexivity.
Qed.

Lemma get0_mjoin {A} (n : Z) (rest : list Z) (slots : list (list A))
    (k : nat) (s : list A) :
  Forall (fun s => length s = Z.to_nat (numel rest)) slots ->
  slots !! k = Some s -> Z.of_nat k < n ->
  get0 (MkTensor (n :: rest) (mjoin slots)) (Z.of_nat k)
  = inr (MkTensor rest s).
Proof.
  intros Hall Hk Hn.
  pose proof (take_drop_middle slots k s Hk) as Hmid.
  assert (Hdone : Forall (fun s => length s = Z.to_nat (numel rest))
                    (take k slots)) by (apply Forall_take; exact Hall).
  apply (get0_slot _ n (Z.of_nat k) rest (mjoin (take k slots)) s
           (mjoin (drop (Datatypes.S k) slots))).
  - reflexivity.
  - cbn [data]. rewrite <- Hmid at 1. rewrite join_app. reflexivity.
  - lia.
  - rewrite (length_mjoin_uniform _ _ Hdone), length_take.
    apply lookup_lt_Some in Hk. lia.
  - rewrite Forall_forall in Hall. apply Hall.
    eapply list_elem_of_lookup_2. exact Hk.
Qed.

Lemma set0_mjoin {A B} (cast : B -> A) (n : Z) (rest : list Z)
    (slots : list (list A)) (k : nat) (v : tensor B) (vs : list B) :
  Forall (fun s => length s = Z.to_nat (numel rest)) slots ->
  (k < length slots)%nat -> Z.of_nat k < n ->
  broadcast_to rest v = inr vs ->
  set0 cast (MkTensor (n :: rest) (mjoin slots)) (Z.of_nat k) v
  = inr (MkTensor (n :: rest) (mjoin (<[k := cast <$> vs]> slots))).
Proof.
  intros Hall Hlt Hn Hv.
  destruct (lookup_lt_is_Some_2 slots k Hlt) as [s Hk].
  pose proof (take_drop_middle slots k s Hk) as Hmid.
  assert (Hdone : Forall (fun s => length s = Z.to_nat (numel rest))
                    (take k slots)) by (apply Forall_take; exact Hall).
  rewrite insert_take_drop by exact Hlt.
  rewrite join_app.
  change (mjoin ((cast <$> vs) :: drop (Datatypes.S k) slots))
    with ((cast <$> vs) ++ mjoin (drop (Datatypes.S k) slots)).
  apply (set0_slot cast _ n (Z.of_nat k) rest (mjoin (take k slots)) s
           (mjoin (drop (Datatypes.S k) slots)) v vs).
  - reflexivity.
  - cbn [data]. rewrite <- Hmid at 1. rewrite join_app. reflexivity.
  - lia.
  - rewrite (length_mjoin_uniform _ _ Hdone), length_take. lia.
  - rewrite Forall_forall in Hall. apply Hall.
    eapply list_elem_of_lookup_2. exact Hk.
  - exact Hv.
Qed.

Lemma blacken_loop (all fl : list bool) (rest : list Z) (n : Z)
    (done todo : list (list Z)) :
  Forall (fun s => length s = Z.to_nat (numel rest)) (done ++ todo) ->
  length fl = length todo ->
  Z.of_nat (length done + length todo) <= n ->
  for_each (zip (seqZ (Z.of_nat (length done)) (Z.of_nat (length fl))) fl)
    (blacken_body all) (MkTensor (n :: rest) (mjoin (done ++ todo)))
  = MkM (if any all then replicate (length fl) (EvWarn nsfw_warning) else [])
      (inr (MkTensor (n :: rest)
              (mjoin (done
                      ++ zip_with
                           (fun (f : bool) s =>
                              if f then replicate (Z.to_nat (numel rest)) 0
                              else s)
                           fl todo)))).
Proof.
  revert done todo.
  induction fl as [|f fl IH]; intros done todo Hall Hlen Hn.
  - destruct todo; [|discriminate]. cbn. destruct (any all); reflexivity.
  - destruct todo as [|s todo]; [discriminate|].
    rewrite seqZ_cons by (cbn [length]; lia).
    replace (Z.pred (Z.of_nat (length (f :: fl)))) with (Z.of_nat (length fl))
      by (cbn [length]; lia).
    cbn [zip zip_with for_each length].
    assert (Hstep :
              blacken_body all (Z.of_nat (length done), f)
                (MkTensor (n :: rest) (mjoin (done ++ s :: todo)))
              = MkM (if any all then [EvWarn nsfw_warning] else [])
                  (inr (MkTensor (n :: rest)
                          (mjoin ((done
                                   ++ [if f
                                       then replicate
                                              (Z.to_nat (numel rest)) 0
                                       else s]) ++ todo))))).
    { unfold blacken_body. rewrite <- app_assoc. cbn [app].
      destruct f.
      - rewrite (get0_mjoin n rest (done ++ s :: todo) (length done) s);
          [|exact Hall|apply list_lookup_middle; reflexivity
           |cbn [length] in Hn; lia].
        rewrite bind_lift_inr. cbn [shape].
        rewrite (set0_mjoin id n rest (done ++ s :: todo) (length done)
                   (zeros 0 rest) (data (zeros 0 rest)));
          [|exact Hall|rewrite length_app; cbn [length]; lia
           |cbn [length] in Hn; lia|apply (broadcast_to_same (zeros 0 rest))].
        rewrite bind_lift_inr, list_fmap_id.
        rewrite insert_app_r_alt by lia. rewrite Nat.sub_diag.
        cbn [insert list_insert zeros data].
        destruct (any all); reflexivity.
      - rewrite bind_ret_l. destruct (any all); reflexivity. }
    rewrite Hstep, bind_MkM_inr.
    rewrite <- app_assoc in Hstep |- *. cbn [app] in *.
    replace (Z.succ (Z.of_nat (length done)))
      with (Z.of_nat (length (done ++ [if f
                                       then replicate
                                              (Z.to_nat (numel rest)) 0
                                       else s])))
      by (rewrite length_app; cbn [length]; lia).
    replace (done ++ (if f then replicate (Z.to_nat (numel rest)) 0 else s)
             :: todo)
      with ((done ++ [if f then replicate (Z.to_nat (numel rest)) 0 else s])
            ++ todo) by (rewrite <- app_assoc; reflexivity).
    rewrite IH.
    + cbn [trace outcome]. rewrite <- app_assoc. cbn [app].
      destruct (any all); reflexivity.
    + rewrite <- app_assoc. cbn [app].
      apply Forall_app in Hall as [Hd Ht].
      apply Forall_cons in Ht as [Hs Ht].
      apply Forall_app. split; [exact Hd|].
      apply Forall_cons. split; [|exact Ht].
      destruct f; [apply length_replicate | exact Hs].
    + cbn [length] in Hlen. lia.
    + rewrite length_app. cbn [length] in *. lia.
Qed.

Lemma enumerate_seqZ {X} (xs : list X) :
  enumerate xs = zip (seqZ (Z.of_nat 0) (Z.of_nat (length xs))) xs.
Proof. reflexivity. Qed.

Lemma for_each_unflagged {S} (k : Z) (fl : list bool)
    (body : Z * bool -> S -> M S) (s : S) :
  Forall (eq false) fl ->
  (forall i s', body (i, false) s' = ret s') ->
  for_each (zip (seqZ k (Z.of_nat (length fl))) fl) body s = ret s.
Proof.
  intros Hfl Hbody. revert k.
  induction Hfl as [|f fl <- _ IH]; intros k; [reflexivity|].
  rewrite seqZ_cons by (cbn [length]; lia).
  replace (Z.pred (Z.of_nat (length (false :: fl))))
    with (Z.of_nat (length fl)) by (cbn [length]; lia).
  cbn [zip zip_with for_each]. rewrite Hbody, bind_ret_l. apply IH.
Qed.

Lemma any_unflagged (fl : list bool) : Forall (eq false) fl -> any fl = false.
Proof.
  induction 1 as [|f fl <- _ IH]; [reflexivity|]. exact IH.
Qed.

Lemma zip_with_blank_length {A} (sz : nat) (zero : A) (fl : list bool)
    (slots : list (list A)) :
  Forall (fun s => length s = sz) slots ->
  zip_with (fun (f : bool) s => if f then replicate sz zero else s) fl slots
  = zip_with (fun (f : bool) s => if f then replicate (length s) zero else s)
      fl slots.
Proof.
  intros Hall. revert fl.
  induction Hall as [|s slots Hs _ IH]; intros [|f fl]; try reflexivity.
  cbn [zip_with]. rewrite IH, Hs. reflexivity.
Qed.

Lemma blacken_correct (flags : list bool) (rest : list Z)
    (slots : list (list Z)) :
  Forall (fun s => length s = Z.to_nat (numel rest)) slots ->
  length flags = length slots ->
  blacken flags (MkTensor (Z.of_nat (length slots) :: rest) (mjoin slots))
  = MkM (if any flags
         then replicate (length flags) (EvWarn nsfw_warning) else [])
      (inr (MkTensor (Z.of_nat (length slots) :: rest)
              (mjoin (zip_with
                        (fun (f : bool) s =>
                           if f then replicate (Z.to_nat (numel rest)) 0
                           else s)
                        flags slots)))).
Proof.
  intros Hall Hlen.
  rewrite blacken_unfold, enumerate_seqZ.
  exact (blacken_loop flags flags rest (Z.of_nat (length slots)) []
           slots Hall Hlen ltac:(cbn [length]; lia)).
Qed.

Lemma fmap_mjoin {A B} (f : A -> B) (ls : list (list A)) :
  f <$> mjoin ls = mjoin (fmap f <$> ls).
Proof.
  induction ls as [|l ls IH]; [reflexivity|].
  change (mjoin (l :: ls)) with (l ++ mjoin ls).
  rewrite fmap_app, IH. reflexivity.
Qed.

Section SafetyMore.
Context `{Models}.

Variables (checker : Weights -> tensor float -> list bool)
  (p_get_has_nsfw_concepts : tensor float -> Weights -> list bool)
  (params : Params).


Lemma run_safety_checker_eval (rest : list Z) (slots : list (list Z))
    (safety_model_params : Weights) (jit : bool) (flags : list bool) :
  flags
  = (if jit
     then p_get_has_nsfw_concepts
            (shard (feature_extractor
                      (MkTensor (Z.of_nat (length slots) :: rest)
                         (mjoin slots))))
            safety_model_params
     else checker safety_model_params
            (feature_extractor
               (MkTensor (Z.of_nat (length slots) :: rest) (mjoin slots)))) ->
  Forall (fun s => length s = Z.to_nat (numel rest)) slots ->
  length flags = length slots ->
  _run_safety_checker checker p_get_has_nsfw_concepts
    (MkTensor (Z.of_nat (length slots) :: rest) (mjoin slots))
    safety_model_params jit
  = MkM ([EvFeatureExtractor; EvSafetyChecker]
         ++ if any flags
            then replicate (length flags) (EvWarn nsfw_warning)
            else [])
      (inr (MkTensor (Z.of_nat (length slots) :: rest)
              (mjoin (zip_with
                        (fun (f : bool) s =>
                           if f then replicate (Z.to_nat (numel rest)) 0
                           else s)
                        flags slots)),
            flags)).
Proof.
  intros Hflags Hall Hlen.
  unfold _run_safety_checker, call. rewrite !bind_MkM_inr.
  rewrite <- Hflags.
  rewrite (blacken_correct flags rest slots Hall Hlen).
  rewrite bind_MkM_inr. cbn [ret trace outcome app].
  rewrite app_nil_r. reflexivity.
Qed.

(** X9: [_run_safety_checker] calls the feature extractor and then the
    classifier, returns the flags, and returns the images with exactly the
    flagged ones replaced by black images of the same size.  When at least
    one image is flagged it warns once per image of the batch, not once. *)
Theorem run_safety_checker_blanks_flagged (rest : list Z)
    (slots : list (list Z)) (safety_model_params : Weights) (jit : bool) :
  let images := MkTensor (Z.of_nat (length slots) :: rest) (mjoin slots) in
  let flags :=
    if jit
    then p_get_has_nsfw_concepts (shard (feature_extractor images))
           safety_model_params
    else checker safety_model_params (feature_extractor images) in
  Forall (fun s => length s = Z.to_nat (numel rest)) slots ->
  length flags = length slots ->
  _run_safety_checker checker p_get_has_nsfw_concepts images
    safety_model_params jit
  = MkM ([EvFeatureExtractor; EvSafetyChecker]
         ++ if any flags
            then replicate (length flags) (EvWarn nsfw_warning)
            else [])
      (inr (MkTensor (Z.of_nat (length slots) :: rest)
              (mjoin (zip_with
                        (fun (f : bool) s =>
                           if f then replicate (length s) 0 else s)
                        flags slots)),
            flags)).
Proof.
  intros images flags Hall Hlen. unfold images.
  rewrite (run_safety_checker_eval rest slots safety_model_params jit flags
             eq_refl Hall Hlen).
  rewrite (zip_with_blank_length _ _ _ _ Hall). reflexivity.
Qed.

End SafetyMore.

Lemma run_safety_checker_blanks_flagged_witness :
  _run_safety_checker (H:=toy_models [false; true])
    (fun _ _ => [false; true]) (fun _ _ => [false; true])
    (MkTensor [2; 2; 2; 3] (mjoin (uint8_pair 200 100))) tt false
  = MkM [EvFeatureExtractor; EvSafetyChecker;
         EvWarn nsfw_warning; EvWarn nsfw_warning]
      (inr (MkTensor [2; 2; 2; 3] (mjoin (uint8_pair 200 0)),
            [false; true])).
Proof.
  apply (run_safety_checker_blanks_flagged (H:=toy_models [false; true])
           (fun _ _ => [false; true]) (fun _ _ => [false; true])
           [2; 2; 3] (uint8_pair 200 100) tt false).
  - repeat constructor.
  - reflexivity.
Defined.

Section BlockImages.
Context `{Models}.
Lemma block_images_unfold (flags : list bool) (u8 : tensor Z)
    (images : tensor float) :
  block_images flags u8 images
  = if any flags
    then for_each (enumerate flags) (block_body u8) images
    else ret images.
Proof.
  unfold block_images. destruct (any flags); [|reflexivity].
  apply for_each_ext. intros [i f] s. reflexivity.
Qed.

Lemma block_read_only (u8 : tensor Z) (n : Z) (rest : list Z) (k : Z)
    (fl : list bool) (images : tensor float) :
  shape u8 = n :: rest -> 0 <= k -> k + Z.of_nat (length fl) <= n ->
  any fl = true ->
  for_each (zip (seqZ k (Z.of_nat (length fl))) fl) (block_body u8) images
  = MkM [] (inl (LibraryError "assignment destination is read-only")).
Proof.
  intros Hshape. revert k.
  induction fl as [|f fl IH]; intros k Hk Hn Hany; [discriminate|].
  rewrite seqZ_cons by (cbn [length]; lia).
  replace (Z.pred (Z.of_nat (length (f :: fl))))
    with (Z.of_nat (length fl)) by (cbn [length]; lia).
  cbn [zip zip_with for_each]. cbn [length] in Hn.
  destruct f.
  - unfold block_body, get0. rewrite Hshape.
    rewrite decide_True by lia. rewrite bind_lift_inr. reflexivity.
  - unfold block_body at 1. rewrite bind_ret_l.
    apply IH; [lia | lia | exact Hany].
Qed.

End BlockImages.

Section SafetyStage.
Context `{Models}.

Variables (checker : Weights -> tensor float -> list bool)
  (p_get_has_nsfw_concepts : tensor float -> Weights -> list bool)
  (params : Params) (jit : bool) (height width : Z).

Hypothesis Hchecker : safety_checker = Some checker.

(** X10: when the safety checker flags none of the images of a
    replicated call, [__call__] returns the generated images unchanged,
    with the list of flags, and warns about nothing. *)
Theorem safety_stage_keeps_unflagged_batch (images : tensor float)
    (devices batch : Z) :
  shape images = [devices; batch; height; width; 3] ->
  let flags := has_nsfw_concept_of checker p_get_has_nsfw_concepts params jit images [devices * batch; height; width; 3] in
  Forall (eq false) flags ->
  safety_stage p_get_has_nsfw_concepts params jit height width images
  = MkM [EvFeatureExtractor; EvSafetyChecker]
      (inr (images, PyList (PyBool <$> flags))).
Proof.
  intros Hshape flags Hflags. unfold safety_stage.
  rewrite Hchecker, Hshape. cbn [first_two]. rewrite bind_lift_inr.
  unfold reshape at 1. cbn [tmap shape data]. rewrite Hshape.
  rewrite decide_True by (unfold numel; cbn [foldr]; lia).
  rewrite bind_lift_inr.
  unfold _run_safety_checker, call. rewrite !bind_MkM_inr.
  fold (has_nsfw_concept_of checker p_get_has_nsfw_concepts params jit images [devices * batch; height; width; 3]). fold flags.
  rewrite blacken_unfold, enumerate_seqZ.
  rewrite for_each_unflagged; [|exact Hflags|].
  - rewrite !bind_ret_l. cbn [ret trace outcome app].
    rewrite bind_MkM_inr. cbn beta iota. rewrite block_images_unfold.
    rewrite (any_unflagged _ Hflags), bind_ret_l.
    unfold reshape. rewrite Hshape, decide_True by reflexivity.
    rewrite bind_lift_inr. cbn [ret trace outcome app].
    destruct images as [sh dt]. cbn [shape data] in *. subst sh. reflexivity.
  - intros i s'. unfold blacken_body.
    rewrite (any_unflagged _ Hflags), !bind_ret_l. reflexivity.
Qed.

(** X11: with a safety checker, the part of [__call__] after generation
    needs the device axis of a replicated run: on the four-dimensional
    images of a call that is not replicated it takes the height for the
    batch size and fails in the reshape, before the checker is run. *)
Theorem safety_stage_needs_device_axis (images : tensor float) (batch : Z) :
  shape images = [batch; height; width; 3] ->
  0 < batch -> 1 < height -> 0 < width ->
  safety_stage p_get_has_nsfw_concepts params jit height width images
  = MkM [] (inl (LibraryError "cannot reshape array")).
Proof.
  intros Hshape Hb Hh Hw. unfold safety_stage.
  rewrite Hchecker, Hshape. cbn [first_two]. rewrite bind_lift_inr.
  unfold reshape at 1. cbn [tmap shape data]. rewrite Hshape.
  rewrite decide_False; [reflexivity|].
  unfold numel. cbn [foldr]. nia.
Qed.

End SafetyStage.

Lemma safety_stage_keeps_unflagged_batch_witness :
  safety_stage (H:=toy_models [false; false]) (fun _ _ => [false; false])
    (toy_params [false; false]) true 64 64 (two_images (1 # 5) (2 # 5))
  = MkM [EvFeatureExtractor; EvSafetyChecker]
      (inr (two_images (1 # 5) (2 # 5),
            PyList [PyBool false; PyBool false])).
Proof.
  apply (safety_stage_keeps_unflagged_batch (H:=toy_models [false; false])
           (fun _ _ => [false; false]) (fun _ _ => [false; false])
           (toy_params [false; false]) true 64 64 eq_refl
           (two_images (1 # 5) (2 # 5)) 1 2).
  - reflexivity.
  - repeat constructor.
Defined.

Lemma safety_stage_needs_device_axis_witness :
  safety_stage (H:=toy_models [false]) (fun _ _ => [false])
    (toy_params [false]) false 64 64 (full [1; 64; 64; 3] (1 # 2)%Q)
  = MkM [] (inl (LibraryError "cannot reshape array")).
Proof.
  apply (safety_stage_needs_device_axis (H:=toy_models [false])
           (fun _ _ => [false]) (fun _ _ => [false]) (toy_params [false])
           false 64 64 eq_refl (full [1; 64; 64; 3] (1 # 2)%Q) 1).
  - reflexivity.
  - lia.
  - lia.
  - lia.
Defined.

(** ** custom_pipeline.py: the blocking loop of __call__ *)

Section Blocked.
Context `{Models}.

Variables (checker : Weights -> tensor float -> list bool)
  (p_get_has_nsfw_concepts : tensor float -> Weights -> list bool)
  (params : Params) (jit : bool) (height width : Z).

(** C2 fails on the code.  [_run_safety_checker] blanks the flagged
    images in a copy and warns, but the "block images" loop of [__call__]
    then assigns into [np.asarray(images)], a read-only view of the
    generator's array: whenever at least one image is flagged, on any
    number of devices and images per device, the call raises (numpy's
    [ValueError: assignment destination is read-only]) after the warnings
    and returns nothing, where the claim has it return the images with
    the flagged ones black. *)
Theorem block_images_read_only (slots : list (list float))
    (devices batch : Z) :
  safety_checker = Some checker ->
  let images := MkTensor [devices; batch; height; width; 3] (mjoin slots) in
  let flags :=
    has_nsfw_concept_of checker p_get_has_nsfw_concepts params jit images
      [devices * batch; height; width; 3] in
  Z.of_nat (length slots) = devices * batch ->
  Forall (fun s => length s = Z.to_nat (numel [height; width; 3])) slots ->
  length flags = length slots ->
  any flags = true ->
  safety_stage p_get_has_nsfw_concepts params jit height width images
  = MkM ([EvFeatureExtractor; EvSafetyChecker]
         ++ replicate (length flags) (EvWarn nsfw_warning))
      (inl (LibraryError "assignment destination is read-only")).
Proof.
  intros Hchecker images flags Hcount Hall Hlen Hany.
  set (rest := [height; width; 3]) in *.
  set (u8 := fun x : float => round_uint8 (r_mul x (r_const 255))).
  assert (Hu8 : Forall (fun s => length s = Z.to_nat (numel rest))
                  (fmap (M:=list) u8 <$> slots)).
  { apply Forall_fmap. eapply Forall_impl; [exact Hall|].
    intros s Hs. cbn. rewrite length_fmap. exact Hs. }
  assert (Hlen8 : length flags = length (fmap (M:=list) u8 <$> slots))
    by (rewrite length_fmap; exact Hlen).
  assert (Hflags : flags
                   = has_nsfw_concept_of checker p_get_has_nsfw_concepts
                       params jit images
                       [devices * batch; height; width; 3])
    by reflexivity.
  clearbody flags. subst images. unfold has_nsfw_concept_of in Hflags.
  cbn [data] in Hflags. cbv zeta in Hflags. fold u8 in Hflags.
  unfold safety_stage. rewrite Hchecker.
  cbn [shape first_two]. rewrite bind_lift_inr.
  unfold reshape at 1. cbn [tmap shape data].
  rewrite decide_True by (unfold numel, rest; cbn [foldr]; ring).
  rewrite bind_lift_inr.
  fold u8. rewrite fmap_mjoin.
  replace (devices * batch)
    with (Z.of_nat (length (fmap (M:=list) u8 <$> slots))) in *
    by (rewrite length_fmap; exact Hcount).
  fold rest in Hflags |- *. rewrite fmap_mjoin in Hflags.
  rewrite (run_safety_checker_eval checker p_get_has_nsfw_concepts rest _
             (p_safety_checker params) jit flags Hflags Hu8 Hlen8).
  rewrite bind_MkM_inr. cbn beta iota.
  rewrite block_images_unfold, Hany, enumerate_seqZ.
  rewrite (block_read_only _ (Z.of_nat (length (fmap (M:=list) u8 <$> slots)))
             rest);
    [|reflexivity|lia|rewrite Hlen8; lia|exact Hany].
  cbn [bind trace outcome]. rewrite app_nil_r. reflexivity.
Qed.

End Blocked.

(** One device, two images, the second one flagged. *)
Lemma block_images_read_only_witness :
  safety_stage (H:=toy_models [false; true]) (fun _ _ => [false; true])
    (toy_params [false; true]) true 64 64 (two_images (1 # 5) (2 # 5))
  = MkM [EvFeatureExtractor; EvSafetyChecker;
         EvWarn nsfw_warning; EvWarn nsfw_warning]
      (inl (LibraryError "assignment destination is read-only")).
Proof.
  apply (block_images_read_only (H:=toy_models [false; true])
           (fun _ _ => [false; true]) (fun _ _ => [false; true])
           (toy_params [false; true]) true 64 64
           [replicate (Z.to_nat (numel [64; 64; 3])) (1 # 5)%Q;
            replicate (Z.to_nat (numel [64; 64; 3])) (2 # 5)%Q] 1 2).
  - reflexivity.
  - reflexivity.
  - repeat constructor; apply length_replicate.
  - reflexivity.
  - reflexivity.
Defined.

(** ** custom_pipeline.py: the sequential and the fused loop *)




Section Strategies.
Context `{Models}.




End Strategies.


